(** * One-tick update routines of the boids flocking simulator

    Shallow embedding of the three exported routines of the repository:

    - [Mistral.update_boids]        (1.ai.base.codes/2c.mistral.rebound.cpp),
      the simple flock update, which writes its results into fresh vectors;
    - [PoorAreas.update_boids_cpp]  (2.my.version/1.rebound.poor.areas.cpp),
      the extended flock update with predators, poor areas and perturbation;
    - [PoorAreas.update_predators_cpp] (same file), the predator update.

    Modelling decisions.

    - Memory.  An Rcpp [NumericVector] is a handle on a vector of the R
      heap: building one from a data-frame column of storage type double
      wraps the column itself and copies nothing.  The heap is a [store]
      (a list of vectors), a handle is a [loc] (an index into it), a
      [DataFrame] is a record of handles, and [x[i]] reads or writes the
      heap cell behind the handle.  [NumericVector v(n)] allocates a new
      zero-filled vector.
    - Indexing.  [operator[]] performs no validation; a read or write
      outside the vector is undefined behaviour in C++ and is the outcome
      [OutOfBounds] here.
    - Numbers.  The code is written once over an interface [Arith] for
      C++ [double].  The model of [double] is IEEE binary64 (the kernel's
      primitive floats), on which the routines run as on the machine, NaN,
      infinities and rounding included; every property that depends on
      the values that the arithmetic returns is stated on it.  The real
      numbers are a second instance, used for the paths of hand-picked
      examples and for the case analysis of the rebound.
    - Randomness.  [rand() / (double)RAND_MAX] is an input: [rnd k] is the
      value of that quotient at the k-th call of [rand] during the tick. *)

From Stdlib Require Import Floats.
From Stdlib Require Uint63.
From Stdlib Require Import Reals Lra Lia ZArith Bool.
From Stdlib Require QArith.
From stdpp Require Import base list.

Set Default Proof Using "Type".

(** ** Arithmetic of [double] *)

Class Arith (F : Type) : Type := {
  fzero : F;                      (* 0.0 *)
  lit_0_9 : F;                    (* 0.9 *)
  lit_0_05 : F;                   (* 0.05 *)
  lit_0_5 : F;                    (* 0.5 *)
  lit_0_1 : F;                    (* 0.1 *)
  of_int : nat -> F;              (* implicit conversion of a non-negative int *)
  fadd : F -> F -> F;
  fsub : F -> F -> F;
  fmul : F -> F -> F;
  fdiv : F -> F -> F;
  fneg : F -> F;
  fsqrt : F -> F;
  fltb : F -> F -> bool;          (* a < b *)
  lt_INFINITY : F -> bool;        (* a < INFINITY *)
}.

Declare Scope arith_scope.
Delimit Scope arith_scope with A.
Infix "+" := fadd : arith_scope.
Infix "-" := fsub : arith_scope.
Infix "*" := fmul : arith_scope.
Infix "/" := fdiv : arith_scope.
Notation "- x" := (fneg x) : arith_scope.
Infix "<?" := fltb : arith_scope.
Notation "a >? b" := (fltb b a) (only parsing) : arith_scope.

(** [a < b] on the reals, as a boolean. *)
Definition Rltb (a b : R) : bool := if Rlt_dec a b then true else false.

#[export] Instance real_arith : Arith R := {|
  fzero := 0%R;
  lit_0_9 := (9 / 10)%R;
  lit_0_05 := (5 / 100)%R;
  lit_0_5 := (5 / 10)%R;
  lit_0_1 := (1 / 10)%R;
  of_int := INR;
  fadd := Rplus;
  fsub := Rminus;
  fmul := Rmult;
  fdiv := Rdiv;
  fneg := Ropp;
  fsqrt := sqrt;
  fltb := Rltb;
  lt_INFINITY := fun _ => true;
|}.

#[export] Instance binary64_arith : Arith float := {|
  fzero := 0%float;
  lit_0_9 := 0x1.ccccccccccccdp-1%float;
  lit_0_05 := 0x1.999999999999ap-5%float;
  lit_0_5 := 0.5%float;
  lit_0_1 := 0x1.999999999999ap-4%float;
  of_int := fun n => PrimFloat.of_uint63 (Uint63.of_Z (Z.of_nat n));
  fadd := PrimFloat.add;
  fsub := PrimFloat.sub;
  fmul := PrimFloat.mul;
  fdiv := PrimFloat.div;
  fneg := PrimFloat.opp;
  fsqrt := PrimFloat.sqrt;
  fltb := PrimFloat.ltb;
  lt_INFINITY := fun a => PrimFloat.ltb a PrimFloat.infinity;
|}.

(** ** The heap of numeric vectors *)

Abbreviation loc := nat (only parsing).
Abbreviation store F := (list (list F)) (only parsing).

(** A computation either completes or stops at an access outside a vector
    ([v] the handle, [k] the index). *)
Inductive outcome (A : Type) : Type :=
| Done (a : A)
| OutOfBounds (v : loc) (k : nat).
Arguments Done {A} a.
Arguments OutOfBounds {A} v k.

Definition bind {A B : Type} (m : outcome A) (k : A -> outcome B) : outcome B :=
  match m with
  | Done a => k a
  | OutOfBounds v i => OutOfBounds v i
  end.

Notation "'let*' x ':=' m 'in' k" := (bind m (fun x => k))
  (at level 10, x name, m at level 100, k at level 200).
Notation "'let*' ' p ':=' m 'in' k" :=
  (bind m (fun x => match x with p => k end))
  (at level 10, p pattern, m at level 100, k at level 200).

(** The data frame as Rcpp sees it: a row count and the handles of its
    columns.  The three frames of the program have the columns read below. *)
Record DataFrame : Type := {
  nrows : nat;
  col_x : loc;
  col_y : loc;
  col_vx : loc;
  col_vy : loc;
}.

(** The lengths of the vectors of the heap. *)
Definition shape {F : Type} (s : store F) : list nat := length <$> s.

(** [v] is the handle of a vector of [n] cells. *)
Definition vector {F : Type} (s : store F) (v : loc) (n : nat) : Prop :=
  shape s !! v = Some n.

(** The columns of a frame have as many cells as the frame has rows: the
    position columns, and all four columns. *)
Definition positions {F : Type} (s : store F) (df : DataFrame) : Prop :=
  vector s (col_x df) (nrows df) /\ vector s (col_y df) (nrows df).
Definition well_formed {F : Type} (s : store F) (df : DataFrame) : Prop :=
  positions s df /\
  vector s (col_vx df) (nrows df) /\ vector s (col_vy df) (nrows df).

(** The four columns of a frame are four vectors of the heap. *)
Definition distinct_columns (df : DataFrame) : Prop :=
  NoDup [col_x df; col_y df; col_vx df; col_vy df].

(** for (int i = 0; i < n; i++) body *)
Fixpoint for_loop {A : Type} (n : nat) (body : nat -> A -> outcome A) (a : A)
  : outcome A :=
  match n with
  | O => Done a
  | S m => let* a' := for_loop m body a in body m a'
  end.

Section Heap.
Context {F : Type} `{Arith F}.
Local Open Scope arith_scope.

(** v[k] as an rvalue *)
Definition rd (s : store F) (v : loc) (k : nat) : outcome F :=
  match s !! v with
  | Some l => match l !! k with
              | Some a => Done a
              | None => OutOfBounds v k
              end
  | None => OutOfBounds v k
  end.

(** The heap after v[k] = a. *)
Definition put (s : store F) (v : loc) (k : nat) (a : F) : store F :=
  match s !! v with
  | Some l => <[v := <[k := a]> l]> s
  | None => s
  end.

(** v[k] = a *)
Definition wr (s : store F) (v : loc) (k : nat) (a : F) : outcome (store F) :=
  match s !! v with
  | Some l => if decide (k < length l)%nat then Done (put s v k a)
              else OutOfBounds v k
  | None => OutOfBounds v k
  end.

(** [s'] has the vectors of [s], with the same contents except perhaps
    in cell [i] of the vectors [vs]. *)
Definition modifies (vs : list loc) (i : nat) (s s' : store F) : Prop :=
  shape s' = shape s /\
  forall v k, v ∉ vs \/ k <> i -> rd s' v k = rd s v k.

(** NumericVector v(n): a new vector of n zeros; its handle is the next
    free location. *)
Definition alloc (s : store F) (n : nat) : loc * store F :=
  (length s, s ++ [replicate n fzero]).

(** std::max and std::min of <algorithm>. *)
Definition fmax (a b : F) : F := if a <? b then b else a.
Definition fmin (a b : F) : F := if b <? a then b else a.

(** pow(a, 2) *)
Definition pow2 (a : F) : F := a * a.

(** *** Blocks that the flock and predator routines have in common *)

(** Limit Speed:
      double speed = sqrt(vx[i]*vx[i] + vy[i]*vy[i]);
      if (speed > max_speed) {
        vx[i] = vx[i] / speed * max_speed;
        vy[i] = vy[i] / speed * max_speed;
      }
    on the velocity vectors [vx], [vy] of the routine. *)
Definition limit_speed (vx vy : loc) (max_speed : F) (i : nat) (s : store F)
  : outcome (store F) :=
  let* a := rd s vx i in
  let* b := rd s vy i in
  let speed := fsqrt (a * a + b * b) in
  if speed >? max_speed then
    let* a := rd s vx i in
    let* s := wr s vx i (a / speed * max_speed) in
    let* b := rd s vy i in
    wr s vy i (b / speed * max_speed)
  else Done s.

(** Rebound Off Walls, one axis, of the extended and predator routines:
      if (x[i] < 0 || x[i] > width) {
        vx[i] = -vx[i];
        x[i] = std::max(0.0, std::min(width, x[i]));
      } *)
Definition rebound (x vx : loc) (width : F) (i : nat) (s : store F)
  : outcome (store F) :=
  let* a := rd s x i in
  if (a <? fzero) || (a >? width) then
    let* v := rd s vx i in
    let* s := wr s vx i (- v) in
    let* a := rd s x i in
    wr s x i (fmax fzero (fmin width a))
  else Done s.

(** Update Position, one axis, of the extended and predator routines:
      x[i] += vx[i]; *)
Definition advance (x vx : loc) (i : nat) (s : store F) : outcome (store F) :=
  let* v := rd s vx i in
  let* a := rd s x i in
  wr s x i (a + v).
End Heap.

(** ** 1.ai.base.codes/2c.mistral.rebound.cpp *)

Module Mistral.
Section update_boids.
Context {F : Type} `{Arith F}.
Local Open Scope arith_scope.

(** The local accumulators of one boid's neighbour scan. *)
Record scan : Type := {
  sep_x : F; sep_y : F;
  ali_x : F; ali_y : F;
  coh_x : F; coh_y : F;
  sep_count : nat; ali_count : nat; coh_count : nat;
}.

Definition scan0 : scan :=
  {| sep_x := fzero; sep_y := fzero; ali_x := fzero; ali_y := fzero;
     coh_x := fzero; coh_y := fzero;
     sep_count := 0; ali_count := 0; coh_count := 0 |}.

Context (x y vx vy : loc).
Context (max_speed max_force vision_radius separation_radius : F).

(** Body of the loop over j. *)
Definition scan_step (s : store F) (i j : nat) (a : scan) : outcome scan :=
  if decide (i = j) then Done a
  else
    let* xj := rd s x j in
    let* xi := rd s x i in
    let dx := xj - xi in
    let* yj := rd s y j in
    let* yi := rd s y i in
    let dy := yj - yi in
    let d := fsqrt (dx * dx + dy * dy) in
    let a :=
      if d <? separation_radius then
        {| sep_x := sep_x a - dx; sep_y := sep_y a - dy;
           ali_x := ali_x a; ali_y := ali_y a;
           coh_x := coh_x a; coh_y := coh_y a;
           sep_count := S (sep_count a);
           ali_count := ali_count a; coh_count := coh_count a |}
      else a in
    if d <? vision_radius then
      let* vxj := rd s vx j in
      let* vyj := rd s vy j in
      let* xj := rd s x j in
      let* yj := rd s y j in
      Done {| sep_x := sep_x a; sep_y := sep_y a;
              ali_x := ali_x a + vxj; ali_y := ali_y a + vyj;
              coh_x := coh_x a + xj; coh_y := coh_y a + yj;
              sep_count := sep_count a;
              ali_count := S (ali_count a); coh_count := S (coh_count a) |}
    else Done a.

(** The block shared by the three rules, on the vector (ux, uy):
      double mag = sqrt(ux*ux + uy*uy);
      if (mag > 0) {
        ux = ux / mag * max_speed - vx[i];
        uy = uy / mag * max_speed - vy[i];
        ux = std::max(-max_force, std::min(max_force, ux));
        uy = std::max(-max_force, std::min(max_force, uy));
      } *)
Definition steer (s : store F) (i : nat) (u : F * F) : outcome (F * F) :=
  let '(ux, uy) := u in
  let mag := fsqrt (ux * ux + uy * uy) in
  if mag >? fzero then
    let* vxi := rd s vx i in
    let ux := ux / mag * max_speed - vxi in
    let* vyi := rd s vy i in
    let uy := uy / mag * max_speed - vyi in
    let ux := fmax (- max_force) (fmin max_force ux) in
    let uy := fmax (- max_force) (fmin max_force uy) in
    Done (ux, uy)
  else Done (ux, uy).

(** Apply Separation *)
Definition separation (s : store F) (i : nat) (a : scan) : outcome (F * F) :=
  if (0 <? sep_count a)%nat then steer s i (sep_x a, sep_y a)
  else Done (sep_x a, sep_y a).

(** Apply Alignment *)
Definition alignment (s : store F) (i : nat) (a : scan) : outcome (F * F) :=
  if (0 <? ali_count a)%nat then
    let ux := ali_x a / of_int (ali_count a) in
    let uy := ali_y a / of_int (ali_count a) in
    steer s i (ux, uy)
  else Done (ali_x a, ali_y a).

(** Apply Cohesion *)
Definition cohesion (s : store F) (i : nat) (a : scan) : outcome (F * F) :=
  if (0 <? coh_count a)%nat then
    let* xi := rd s x i in
    let ux := coh_x a / of_int (coh_count a) - xi in
    let* yi := rd s y i in
    let uy := coh_y a / of_int (coh_count a) - yi in
    steer s i (ux, uy)
  else Done (coh_x a, coh_y a).

(** Border Rebound, one axis:
      if (new_x[i] < 0)     { new_x[i] = 0;     new_vx[i] = -new_vx[i] * 0.9; }
      if (new_x[i] > width) { new_x[i] = width; new_vx[i] = -new_vx[i] * 0.9; } *)
Definition border_rebound (new_x new_vx : loc) (width : F) (i : nat)
    (s : store F) : outcome (store F) :=
  let* a := rd s new_x i in
  let* s :=
    if a <? fzero then
      let* s := wr s new_x i fzero in
      let* v := rd s new_vx i in
      wr s new_vx i (- v * lit_0_9)
    else Done s in
  let* a := rd s new_x i in
  if a >? width then
    let* s := wr s new_x i width in
    let* v := rd s new_vx i in
    wr s new_vx i (- v * lit_0_9)
  else Done s.

Context (new_vx new_vy new_x new_y : loc) (n : nat) (width height : F).

(** Body of the loop over i: the scan, the three rules and Update
    Velocity. *)
Definition new_velocity (i : nat) (s : store F) : outcome (store F) :=
  let* a := for_loop n (scan_step s i) scan0 in
  let* '(sep_x, sep_y) := separation s i a in
  let* '(ali_x, ali_y) := alignment s i a in
  let* '(coh_x, coh_y) := cohesion s i a in
  let* vxi := rd s vx i in
  let* s := wr s new_vx i (vxi + sep_x + ali_x + coh_x) in
  let* vyi := rd s vy i in
  wr s new_vy i (vyi + sep_y + ali_y + coh_y).

(** Update Position *)
Definition new_position (i : nat) (s : store F) : outcome (store F) :=
  let* xi := rd s x i in
  let* v := rd s new_vx i in
  let* s := wr s new_x i (xi + v) in
  let* yi := rd s y i in
  let* v := rd s new_vy i in
  wr s new_y i (yi + v).

(** Body of the loop over i. *)
Definition boid_step (i : nat) (s : store F) : outcome (store F) :=
  let* s := new_velocity i s in
  (* Limit Speed *)
  let* s := limit_speed new_vx new_vy max_speed i s in
  let* s := new_position i s in
  (* Border Rebound *)
  let* s := border_rebound new_x new_vx width i s in
  border_rebound new_y new_vy height i s.
End update_boids.

(** DataFrame update_boids(DataFrame boids, double max_speed,
      double max_force, double vision_radius, double separation_radius,
      double width, double height) *)
Definition update_boids {F : Type} `{Arith F} (boids : DataFrame)
    (max_speed max_force vision_radius separation_radius width height : F)
    (s : store F) : outcome (DataFrame * store F) :=
  let n := nrows boids in
  let x := col_x boids in
  let y := col_y boids in
  let vx := col_vx boids in
  let vy := col_vy boids in
  let '(new_vx, s) := alloc s n in
  let '(new_vy, s) := alloc s n in
  let '(new_x, s) := alloc s n in
  let '(new_y, s) := alloc s n in
  let* s :=
    for_loop n
      (boid_step x y vx vy max_speed max_force vision_radius separation_radius
         new_vx new_vy new_x new_y n width height) s in
  Done ({| nrows := n; col_x := new_x; col_y := new_y;
           col_vx := new_vx; col_vy := new_vy |}, s).
End Mistral.

(** ** 2.my.version/1.rebound.poor.areas.cpp *)

Module PoorAreas.
Section update_boids_cpp.
Context {F : Type} `{Arith F}.
Local Open Scope arith_scope.

(** The lambda [limit], which captures max_speed.  Its argument and its
    result are handles on the two-element vector of the caller, which is
    assigned the result: the local vectors sep, ali, coh, pred and area
    are pairs here. *)
Definition limit (max_speed : F) (vec : F * F) : F * F :=
  let mag := fsqrt (pow2 (fst vec) + pow2 (snd vec)) in
  if mag >? max_speed then
    (fst vec / mag * max_speed, snd vec / mag * max_speed)
  else vec.

(** The accumulators of the loop over the other boids. *)
Record scan : Type := {
  sep : F * F; ali : F * F; coh : F * F;
  sep_total : nat; ali_total : nat; coh_total : nat;
}.

Definition scan0 : scan :=
  {| sep := (fzero, fzero); ali := (fzero, fzero); coh := (fzero, fzero);
     sep_total := 0; ali_total := 0; coh_total := 0 |}.

Context (x y vx vy px py ax ay : loc).
Context (max_speed neighbor_radius predator_radius : F) (area_radius : loc).

(** Body of the loop over j (Separation, Alignment, Cohesion). *)
Definition neighbor_step (s : store F) (i j : nat) (a : scan) : outcome scan :=
  if decide (i = j) then Done a
  else
    let* xi := rd s x i in
    let* xj := rd s x j in
    let dx := xi - xj in
    let* yi := rd s y i in
    let* yj := rd s y j in
    let dy := yi - yj in
    let d := fsqrt (dx * dx + dy * dy) in
    if d <? neighbor_radius then
      let* vxj := rd s vx j in
      let* vyj := rd s vy j in
      let* xj := rd s x j in
      let* yj := rd s y j in
      Done {| sep := (fst (sep a) + dx / d, snd (sep a) + dy / d);
              sep_total := S (sep_total a);
              ali := (fst (ali a) + vxj, snd (ali a) + vyj);
              ali_total := S (ali_total a);
              coh := (fst (coh a) + xj, snd (coh a) + yj);
              coh_total := S (coh_total a) |}
    else Done a.

(** Body of the loop over the predators. *)
Definition avoid_predator_step (s : store F) (i k : nat) (pred : F * F)
  : outcome (F * F) :=
  let* xi := rd s x i in
  let* pxk := rd s px k in
  let dx := xi - pxk in
  let* yi := rd s y i in
  let* pyk := rd s py k in
  let dy := yi - pyk in
  let d := fsqrt (dx * dx + dy * dy) in
  if d <? predator_radius then
    Done (fst pred + dx / d, snd pred + dy / d)
  else Done pred.

(** Body of the loop over the areas. *)
Definition avoid_area_step (s : store F) (i k : nat) (area : F * F)
  : outcome (F * F) :=
  let* xi := rd s x i in
  let* axk := rd s ax k in
  let dx := xi - axk in
  let* yi := rd s y i in
  let* ayk := rd s ay k in
  let dy := yi - ayk in
  let d := fsqrt (dx * dx + dy * dy) in
  let* r := rd s area_radius k in
  if d <? r then
    Done (fst area + dx / d, snd area + dy / d)
  else Done area.

(** The statements that end each of the five rules:
      u = limit(u);  u[0] -= vx[i];  u[1] -= vy[i];  u = limit(u); *)
Definition steer (s : store F) (i : nat) (u : F * F) : outcome (F * F) :=
  let u := limit max_speed u in
  let* vxi := rd s vx i in
  let* vyi := rd s vy i in
  let u := (fst u - vxi, snd u - vyi) in
  Done (limit max_speed u).

(** Separation *)
Definition separation (s : store F) (i : nat) (a : scan) : outcome (F * F) :=
  if (0 <? sep_total a)%nat then
    steer s i (fst (sep a) / of_int (sep_total a),
               snd (sep a) / of_int (sep_total a))
  else Done (sep a).

(** Alignment *)
Definition alignment (s : store F) (i : nat) (a : scan) : outcome (F * F) :=
  if (0 <? ali_total a)%nat then
    steer s i (fst (ali a) / of_int (ali_total a),
               snd (ali a) / of_int (ali_total a))
  else Done (ali a).

(** Cohesion *)
Definition cohesion (s : store F) (i : nat) (a : scan) : outcome (F * F) :=
  if (0 <? coh_total a)%nat then
    let* xi := rd s x i in
    let* yi := rd s y i in
    steer s i (fst (coh a) / of_int (coh_total a) - xi,
               snd (coh a) / of_int (coh_total a) - yi)
  else Done (coh a).

(** Predator Avoidance and areas Avoidance *)
Definition avoidance (s : store F) (i : nat) (u : F * F) : outcome (F * F) :=
  if fsqrt (pow2 (fst u) + pow2 (snd u)) >? fzero then steer s i u
  else Done u.

Context (n_boids n_predators n_areas : nat) (width height : F).
Context (separation_weight alignment_weight cohesion_weight : F).
Context (predator_avoid_weight area_avoid_weight : F).
Context (rnd : nat -> F).

(** add small perturbation:
      vx[i] += (rand() / (double)RAND_MAX - 0.5) * 0.1;
    [k] is the number of calls of rand() made before this one. *)
Definition perturb (vx : loc) (k i : nat) (s : store F) : outcome (store F) :=
  let* v := rd s vx i in
  wr s vx i (v + (rnd k - lit_0_5) * lit_0_1).

(** Body of the loop over i: the three scans, the five rules and Update
    Velocity with Weighted Steering. *)
Definition accelerate (i : nat) (s : store F) : outcome (store F) :=
  let* a := for_loop n_boids (neighbor_step s i) scan0 in
  let* pred := for_loop n_predators (avoid_predator_step s i) (fzero, fzero) in
  let* area := for_loop n_areas (avoid_area_step s i) (fzero, fzero) in
  let* sep := separation s i a in
  let* ali := alignment s i a in
  let* coh := cohesion s i a in
  let* pred := avoidance s i pred in
  let* area := avoidance s i area in
  let* v := rd s vx i in
  let* s := wr s vx i (v + (fst sep * separation_weight +
                              fst ali * alignment_weight +
                              fst coh * cohesion_weight +
                              fst pred * predator_avoid_weight +
                              fst area * area_avoid_weight)) in
  let* v := rd s vy i in
  wr s vy i (v + (snd sep * separation_weight +
                    snd ali * alignment_weight +
                    snd coh * cohesion_weight +
                    snd pred * predator_avoid_weight +
                    snd area * area_avoid_weight)).

(** Body of the loop over i. *)
Definition boid_step (i : nat) (s : store F) : outcome (store F) :=
  let* s := accelerate i s in
  (* Limit Speed *)
  let* s := limit_speed vx vy max_speed i s in
  (* add small perturbation *)
  let* s := perturb vx (2 * i)%nat i s in
  let* s := perturb vy (2 * i + 1)%nat i s in
  (* Update Position *)
  let* s := advance x vx i s in
  let* s := advance y vy i s in
  (* Rebound Off Walls *)
  let* s := rebound x vx width i s in
  rebound y vy height i s.
End update_boids_cpp.

(** DataFrame update_boids_cpp(DataFrame boids, DataFrame predators,
      DataFrame areas, double width, double height, double max_speed,
      double max_force, double neighbor_radius, double predator_radius,
      NumericVector area_radius, double separation_weight,
      double alignment_weight, double cohesion_weight,
      double predator_avoid_weight, double area_avoid_weight)
    and the two inputs that C++ leaves implicit: the draws of rand() and
    the heap. *)
Definition update_boids_cpp {F : Type} `{Arith F}
    (boids predators areas : DataFrame)
    (width height max_speed max_force neighbor_radius predator_radius : F)
    (area_radius : loc)
    (separation_weight alignment_weight cohesion_weight : F)
    (predator_avoid_weight area_avoid_weight : F)
    (rnd : nat -> F) (s : store F) : outcome (DataFrame * store F) :=
  let n_boids := nrows boids in
  let n_predators := nrows predators in
  let n_areas := nrows areas in
  let x := col_x boids in
  let y := col_y boids in
  let vx := col_vx boids in
  let vy := col_vy boids in
  let px := col_x predators in
  let py := col_y predators in
  let ax := col_x areas in
  let ay := col_y areas in
  let* s :=
    for_loop n_boids
      (boid_step x y vx vy px py ax ay max_speed neighbor_radius
         predator_radius area_radius n_boids n_predators n_areas width height
         separation_weight alignment_weight cohesion_weight
         predator_avoid_weight area_avoid_weight rnd) s in
  Done ({| nrows := n_boids; col_x := x; col_y := y;
           col_vx := vx; col_vy := vy |}, s).

Section update_predators_cpp.
Context {F : Type} `{Arith F}.
Local Open Scope arith_scope.

Context (px py pvx pvy bx by_ : loc) (n_boids : nat).
Context (width height max_speed pred_rel_speed : F).

(** d < closest_dist, where [None] is the initial value INFINITY. *)
Definition closer (d : F) (closest_dist : option F) : bool :=
  match closest_dist with
  | None => lt_INFINITY d
  | Some c => d <? c
  end.

(** Find Closest Boid: body of the loop over j, on the pair
    (closest_dist, closest_boid), where [None] is the initial index -1. *)
Definition closest_step (s : store F) (i j : nat)
    (c : option F * option nat) : outcome (option F * option nat) :=
  let* bxj := rd s bx j in
  let* pxi := rd s px i in
  let dx := bxj - pxi in
  let* byj := rd s by_ j in
  let* pyi := rd s py i in
  let dy := byj - pyi in
  let d := fsqrt (dx * dx + dy * dy) in
  if closer d (fst c) then Done (Some d, Some j) else Done c.

(** Steer Toward Closest Boid *)
Definition chase (closest_boid : option nat) (i : nat) (s : store F)
  : outcome (store F) :=
  match closest_boid with
  | Some c =>
      let* bxc := rd s bx c in
      let* pxi := rd s px i in
      let dx := bxc - pxi in
      let* byc := rd s by_ c in
      let* pyi := rd s py i in
      let dy := byc - pyi in
      let d := fsqrt (dx * dx + dy * dy) in
      if d >? fzero then
        let* v := rd s pvx i in
        let* s := wr s pvx i (v + dx / d * lit_0_05) in
        let* v := rd s pvy i in
        wr s pvy i (v + dy / d * lit_0_05)
      else Done s
  | None => Done s
  end.

(** Limit Speed:
      double speed = sqrt(pvx[i]*pvx[i] + pvy[i]*pvy[i]);
      if (speed > (max_speed * pred_rel_speed)) {
        pvx[i] = pvx[i] / speed * max_speed * pred_rel_speed;
        pvy[i] = pvy[i] / speed * max_speed * pred_rel_speed;
      } *)
Definition limit_predator_speed (i : nat) (s : store F) : outcome (store F) :=
  let* a := rd s pvx i in
  let* b := rd s pvy i in
  let speed := fsqrt (a * a + b * b) in
  if speed >? max_speed * pred_rel_speed then
    let* a := rd s pvx i in
    let* s := wr s pvx i (a / speed * max_speed * pred_rel_speed) in
    let* b := rd s pvy i in
    wr s pvy i (b / speed * max_speed * pred_rel_speed)
  else Done s.

(** Steps 5 to 7 of the loop over i: what follows the steering. *)
Definition coast (i : nat) (s : store F) : outcome (store F) :=
  let* s := limit_predator_speed i s in
  let* s := advance px pvx i s in
  let* s := advance py pvy i s in
  let* s := rebound px pvx width i s in
  rebound py pvy height i s.

(** Body of the loop over i. *)
Definition predator_step (i : nat) (s : store F) : outcome (store F) :=
  let* c := for_loop n_boids (closest_step s i) (None, None) in
  let* s := chase (snd c) i s in
  coast i s.
End update_predators_cpp.

(** DataFrame update_predators_cpp(DataFrame predators, DataFrame boids,
      double width, double height, double max_speed, double pred_rel_speed) *)
Definition update_predators_cpp {F : Type} `{Arith F}
    (predators boids : DataFrame)
    (width height max_speed pred_rel_speed : F)
    (s : store F) : outcome (DataFrame * store F) :=
  let n_predators := nrows predators in
  let n_boids := nrows boids in
  let px := col_x predators in
  let py := col_y predators in
  let pvx := col_vx predators in
  let pvy := col_vy predators in
  let bx := col_x boids in
  let by_ := col_y boids in
  let* s :=
    for_loop n_predators
      (predator_step px py pvx pvy bx by_ n_boids width height
         max_speed pred_rel_speed) s in
  Done ({| nrows := n_predators; col_x := px; col_y := py;
           col_vx := pvx; col_vy := pvy |}, s).
End PoorAreas.

(** ** Predicates on heaps *)

(** The vectors of the simple update: the four columns and the four new
    vectors, of [n] cells each. *)
Definition mistral_vectors {F : Type}
    (x y vx vy new_vx new_vy new_x new_y : loc) (n : nat) (s : store F)
  : Prop :=
  vector s x n /\ vector s y n /\ vector s vx n /\ vector s vy n /\
  vector s new_vx n /\ vector s new_vy n /\
  vector s new_x n /\ vector s new_y n.

(** The vectors that the scans of a boid of the extended update read. *)
Definition flock_vectors {F : Type} (x y vx vy : loc) (n_boids : nat)
    (s : store F) : Prop :=
  vector s x n_boids /\ vector s y n_boids /\
  vector s vx n_boids /\ vector s vy n_boids.
Definition scanned_vectors {F : Type} (x y vx vy px py ax ay : loc)
    (n_boids n_predators n_areas : nat) (s : store F) : Prop :=
  flock_vectors x y vx vy n_boids s /\
  vector s px n_predators /\ vector s py n_predators /\
  vector s ax n_areas /\ vector s ay n_areas.

(** The cell [v[i]] holds NaN or a number between 0 and [extent]. *)
Definition inside (s : store float) (v : loc) (i : nat) (extent : float)
  : Prop :=
  exists a, rd s v i = Done a /\
    (is_nan a = false -> (0 <=? a)%float = true /\ (a <=? extent)%float = true).

(** The distance of predator [i] and boid [j], as Find Closest Boid and
    Steer Toward Closest Boid compute it. *)
Definition boid_distance {F : Type} `{Arith F} (px py bx by_ : loc)
    (s : store F) (i j : nat) : outcome F :=
  let* bxj := rd s bx j in
  let* pxi := rd s px i in
  let dx := (bxj - pxi)%A in
  let* byj := rd s by_ j in
  let* pyi := rd s py i in
  let dy := (byj - pyi)%A in
  Done (fsqrt (dx * dx + dy * dy)%A).



(** The rational number that a finite binary64 value stands for. *)
Definition exact (a : float) : QArith_base.Q :=
  match Prim2SF a with
  | S754_finite s m e =>
      QArith_base.Qmult (QArith_base.inject_Z (if s then Zneg m else Zpos m))
        (QArith_base.Qpower (QArith_base.inject_Z 2) e)
  | _ => QArith_base.inject_Z 0
  end.


(** Two heaps of the same shape agree on row [i] of every vector and on
    every row of the vectors outside [ws]. *)
Definition agree {F : Type} `{Arith F} (ws : list loc) (i : nat)
    (st s : store F) : Prop :=
  shape st = shape s /\
  forall v k, k = i \/ v ∉ ws -> rd st v k = rd s v k.

(** ** Inputs on which the routines are run below *)

Module Examples.
(** A heap of four boid (or predator) columns at the handles 0 to 3, four
    columns of a second frame at 4 to 7, a vector of radii at 8, and the
    four columns of a frame without rows at 9 to 12. *)
Definition heap {F : Type} (xs ys vxs vys a b c d radii : list F) : store F :=
  [xs; ys; vxs; vys; a; b; c; d; radii; []; []; []; []].
Definition frame_0_3 (n : nat) : DataFrame :=
  {| nrows := n; col_x := 0; col_y := 1; col_vx := 2; col_vy := 3 |}.
Definition frame_4_7 (n : nat) : DataFrame :=
  {| nrows := n; col_x := 4; col_y := 5; col_vx := 6; col_vy := 7 |}.
Definition radii : loc := 8.
Definition nobody : DataFrame :=
  {| nrows := 0; col_x := 9; col_y := 10; col_vx := 11; col_vy := 12 |}.

(** rand() / (double)RAND_MAX is 0.5 at every call: no perturbation. *)
Definition calm : nat -> float := fun _ => 0.5%float.

(** Two boids three units apart, the first one moving toward the second. *)
Definition two_apart : store float :=
  (heap [0; 3] [0; 0] [1; 0] [0; 0] [] [] [] [] [])%float.

(** Two boids at rest at the same point. *)
Definition two_coincident : store float :=
  (heap [1; 1] [1; 1] [0; 0] [0; 0] [] [] [] [] [])%float.

(** One boid at rest at the point where a predator (or an area of radius 2)
    is. *)
Definition boid_on_predator : store float :=
  (heap [1] [1] [0] [0] [1] [1] [0] [0] [2])%float.


(** One predator (at the handles 0 to 3) and no boid. *)
Definition lone_predator (vx vy : float) : store float :=
  (heap [5] [5] [vx] [vy] [] [] [] [] [])%float.


(** Two boids, a predator and an area of radius 2, over the reals. *)
Definition small_world : store R :=
  (heap [0; 3] [0; 4] [1; 0] [0; 0] [1] [1] [0] [0] [2])%R.

(** The small world after the four allocations of the simple update: the
    new vectors are at the handles 13 to 16. *)
Definition small_world_allocated : store R :=
  (small_world ++ [[0; 0]; [0; 0]; [0; 0]; [0; 0]])%R.

(** Two boids, the first of which has lost its x coordinate. *)
Definition lost_boid : store float :=
  (heap [nan; 3] [0; 4] [1; 0] [0; 0] [1] [1] [0] [0] [2])%float.


(** Two boids, a predator and an area of radius 2. *)
Definition small_flock : store float :=
  (heap [0; 3] [0; 4] [1; 0] [0; 0] [1] [1] [0] [0] [2])%float.




End Examples.

(** * Properties *)

(** ** Comparison of real numbers *)

Lemma Rltb_true (a b : R) : Rltb a b = true <-> (a < b)%R.
Proof. unfold Rltb. destruct (Rlt_dec a b); split; (done || lra). Qed.

Lemma Rltb_false (a b : R) : Rltb a b = false <-> (b <= a)%R.
Proof. unfold Rltb. destruct (Rlt_dec a b); split; (done || lra). Qed.

(** Case analysis on every comparison of the goal. *)
Ltac case_Rltb :=
  repeat match goal with
    | |- context [Rltb ?a ?b] =>
        let E := fresh "E" in
        destruct (Rltb a b) eqn:E;
        [apply Rltb_true in E | apply Rltb_false in E]
    end.

(** ** Facts about the heap *)

Section HeapFacts.
Context {F : Type} `{Arith F}.
Implicit Types (s : store F) (v : loc) (k i n : nat) (a : F).

Lemma vector_lookup s v n :
  vector s v n <-> exists l, s !! v = Some l /\ length l = n.
Proof.
  unfold vector, shape. rewrite list_lookup_fmap.
  destruct (s !! v) as [l|]; simpl; split.
  - intros ?; simplify_eq. by exists l.
  - intros (l' & ? & ?); by simplify_eq.
  - done.
  - by intros (l' & ? & _).
Qed.

Lemma rd_Done s v k n :
  vector s v n -> (k < n)%nat -> exists a, rd s v k = Done a.
Proof.
  intros (l & Hl & <-)%vector_lookup Hk. unfold rd. rewrite Hl.
  destruct (lookup_lt_is_Some_2 l k Hk) as [a ->]. by exists a.
Qed.

Lemma rd_OutOfBounds s v k n :
  vector s v n -> (n <= k)%nat -> rd s v k = OutOfBounds v k.
Proof.
  intros (l & Hl & <-)%vector_lookup Hk. unfold rd. rewrite Hl.
  by rewrite (lookup_ge_None_2 l k Hk).
Qed.

Lemma wr_put s v k n a :
  vector s v n -> (k < n)%nat -> wr s v k a = Done (put s v k a).
Proof.
  intros (l & Hl & <-)%vector_lookup Hk. unfold wr. rewrite Hl.
  by rewrite decide_True.
Qed.

Lemma shape_put s v k a : shape (put s v k a) = shape s.
Proof.
  unfold put, shape. destruct (s !! v) as [l|] eqn:Hl; [|done].
  rewrite list_fmap_insert, length_insert.
  apply list_insert_id. by rewrite list_lookup_fmap, Hl.
Qed.

Lemma rd_put_eq s v k n a :
  vector s v n -> (k < n)%nat -> rd (put s v k a) v k = Done a.
Proof.
  intros (l & Hl & <-)%vector_lookup Hk. unfold rd, put. rewrite Hl.
  rewrite list_lookup_insert_eq by (by eapply lookup_lt_Some).
  by rewrite list_lookup_insert_eq.
Qed.

Lemma rd_put_ne s v k a v' k' :
  v <> v' \/ k <> k' -> rd (put s v k a) v' k' = rd s v' k'.
Proof.
  intros Hne. unfold rd, put. destruct (s !! v) as [l|] eqn:Hl; [|done].
  destruct (decide (v = v')) as [<-|Hv].
  - destruct Hne as [|Hk]; [done|].
    rewrite list_lookup_insert_eq by (by eapply lookup_lt_Some).
    rewrite Hl. by rewrite list_lookup_insert_ne.
  - by rewrite list_lookup_insert_ne.
Qed.

Lemma modifies_refl vs i s : modifies vs i s s.
Proof. by split. Qed.

Lemma modifies_trans vs i s1 s2 s3 :
  modifies vs i s1 s2 -> modifies vs i s2 s3 -> modifies vs i s1 s3.
Proof.
  intros [Hs1 H1] [Hs2 H2]. split; [congruence|].
  intros v k Hvk. by rewrite H2, H1.
Qed.

Lemma modifies_weaken vs vs' i s s' :
  vs ⊆ vs' -> modifies vs i s s' -> modifies vs' i s s'.
Proof.
  intros Hsub [Hs Hrd]. split; [done|].
  intros v k [Hv|Hk]; apply Hrd; [left|by right].
  intros Hin. by apply Hv, Hsub.
Qed.

Lemma modifies_put vs v i a s : v ∈ vs -> modifies vs i s (put s v i a).
Proof.
  intros Hv. split; [apply shape_put|].
  intros v' k Hvk. apply rd_put_ne.
  destruct (decide (v = v')) as [<-|]; [|by left].
  right. destruct Hvk as [|Hk]; [done|]. by intros ->.
Qed.

(** A vector outside [vs] is left as it was. *)
Lemma modifies_lookup vs i s s' v :
  modifies vs i s s' -> v ∉ vs -> s' !! v = s !! v.
Proof.
  intros [Hs Hrd] Hv.
  assert (Hlen : length <$> s' !! v = length <$> s !! v).
  { unfold shape in Hs. by rewrite <- !list_lookup_fmap, Hs. }
  destruct (s' !! v) as [l'|] eqn:Hl', (s !! v) as [l|] eqn:Hl;
    simplify_eq/=; [|done].
  f_equal. apply list_eq. intros k.
  specialize (Hrd v k (or_introl Hv)). unfold rd in Hrd.
  rewrite Hl', Hl in Hrd.
  destruct (l' !! k) eqn:E', (l !! k) eqn:E; congruence.
Qed.

(** Running a loop whose first [k] iterations complete and whose next
    one stops. *)
Lemma for_loop_stops {A : Type} (body : nat -> A -> outcome A) (st st' : A)
    (k n : nat) (v : loc) (j : nat) :
  for_loop k body st = Done st' -> body k st' = OutOfBounds v j ->
  (k < n)%nat -> for_loop n body st = OutOfBounds v j.
Proof.
  intros Hk Hbody Hlt. induction n as [|n IH]; [lia|].
  simpl. destruct (decide (k = n)) as [->|Hne].
  - by rewrite Hk.
  - rewrite IH by lia. done.
Qed.

(** An invariant of a loop whose iterations all complete. *)
Lemma for_loop_invariant {A : Type} (I : nat -> A -> Prop)
    (body : nat -> A -> outcome A) (st : A) (n : nat) :
  I 0%nat st ->
  (forall k st1, (k < n)%nat -> I k st1 ->
     exists st2, body k st1 = Done st2 /\ I (S k) st2) ->
  exists st', for_loop n body st = Done st' /\ I n st'.
Proof.
  intros H0 Hstep. induction n as [|n IH]; simpl; [by exists st|].
  destruct IH as (st1 & -> & H1); [intros; apply Hstep; [lia|done]|].
  simpl. apply Hstep; [lia|done].
Qed.

(** A loop whose iteration [k] completes, writes cell [k] only and
    establishes [P] for it, establishes [P] for every cell. *)
Lemma for_loop_cells (body : nat -> store F -> outcome (store F))
    (vs : list loc) (P : store F -> nat -> Prop) s n :
  (forall k st, (k < n)%nat -> shape st = shape s ->
     exists st', body k st = Done st' /\ modifies vs k st st' /\ P st' k) ->
  (forall k j st st', modifies vs k st st' -> j <> k -> P st j -> P st' j) ->
  exists s', for_loop n body s = Done s' /\ shape s' = shape s /\
             (forall v, v ∉ vs -> s' !! v = s !! v) /\
             forall j, (j < n)%nat -> P s' j.
Proof.
  intros Hbody Hkeep.
  apply (for_loop_invariant
    (fun (k : nat) (st : store F) =>
       shape st = shape s /\ (forall v, v ∉ vs -> st !! v = s !! v) /\
       forall j, (j < k)%nat -> P st j)).
  { split; [done|]. split; [done|]. intros j Hj. lia. }
  intros k st Hk (Sh & Hst & HP).
  destruct (Hbody k st Hk Sh) as (st' & Hrun & M & HPk).
  exists st'. split; [done|]. split; [destruct M; congruence|]. split.
  - intros v Hv. rewrite <- Hst by done. by eapply modifies_lookup.
  - intros j Hj. destruct (decide (j = k)) as [->|Hne]; [done|].
    eapply Hkeep; [exact M|done|]. apply HP. lia.
Qed.
End HeapFacts.

(** Allocation keeps the vectors that the heap has and adds new ones
    behind them. *)
Lemma vector_app {F : Type} (s t : store F) (v : loc) (n : nat) :
  vector s v n -> vector (s ++ t) v n.
Proof.
  unfold vector, shape. intros Hv. rewrite fmap_app.
  by apply lookup_app_l_Some.
Qed.

Lemma vector_new {F : Type} (s t : store F) (k : nat) (l : list F) :
  t !! k = Some l -> vector (s ++ t) (length s + k) (length l).
Proof.
  unfold vector, shape. intros Hk. rewrite list_lookup_fmap.
  rewrite lookup_app_r by lia.
  replace (length s + k - length s)%nat with k by lia. by rewrite Hk.
Qed.

(** ** The blocks complete and write cell [i] only *)

(** [vec] proves that a handle still is a vector of the heap, [run_rd]
    performs the next read, [run_wr] the next write, and [mods] proves
    [modifies] for a heap obtained by a sequence of writes to cell [i]. *)
Ltac vec_go :=
  rewrite ?shape_put;
  first
    [ eassumption
    | match goal with
      | E : shape ?a = shape _ |- context [shape ?a] => rewrite E
      end; vec_go ].
Ltac vec :=
  unfold mistral_vectors, scanned_vectors, flock_vectors, vector in *;
  repeat match goal with H : _ /\ _ |- _ => destruct H end;
  repeat split; vec_go.
Ltac run_rd :=
  match goal with
  | |- context [rd ?s ?v ?k] =>
      first
        [ match goal with E : rd s v k = Done _ |- _ => rewrite E end
        | let a := fresh "a" in
          let E := fresh "E" in
          destruct (rd_Done s v k _ ltac:(vec) ltac:(lia)) as [a E];
          rewrite E ];
      cbn [bind]
  end.
Ltac run_wr :=
  match goal with
  | |- context [wr ?s ?v ?k ?a] =>
      rewrite (wr_put s v k _ a ltac:(vec) ltac:(lia)); cbn [bind]
  end.
Ltac in_list :=
  repeat first [apply list_elem_of_here | apply list_elem_of_further].
Ltac sub_list :=
  let z := fresh "z" in
  let Hz := fresh "Hz" in
  intros z Hz; rewrite !elem_of_cons in Hz;
  repeat (destruct Hz as [Hz|Hz]; [subst z; in_list|]);
  by apply not_elem_of_nil in Hz.
Ltac mods :=
  repeat first
    [ apply modifies_refl
    | eapply modifies_trans; [|apply modifies_put; in_list]
    | eapply modifies_trans;
      [|eapply modifies_weaken; [|eassumption]; sub_list] ].
(** [run B] runs the block whose lemma is [B], naming the heap it leaves. *)
Tactic Notation "run" constr(B) "as" ident(s') ident(M) :=
  let Sh := fresh "Sh" in
  edestruct B as (s' & -> & M);
  [try vec; try lia ..|pose proof M as [Sh _]; cbn [bind]].

Section BlockFacts.
Context {F : Type} `{Arith F}.
Implicit Types (s : store F) (i n : nat).
Local Open Scope arith_scope.

Lemma limit_speed_modifies vx vy (max_speed : F) i n s :
  vector s vx n -> vector s vy n -> (i < n)%nat ->
  exists s', limit_speed vx vy max_speed i s = Done s' /\
             modifies [vx; vy] i s s'.
Proof.
  intros Hvx Hvy Hi. unfold limit_speed. do 2 run_rd.
  destruct (_ <? _).
  - run_wr. run_rd. run_wr. eexists; split; [done|mods].
  - eexists; split; [done|mods].
Qed.

Lemma advance_modifies x vx i n s :
  vector s x n -> vector s vx n -> (i < n)%nat ->
  exists s', advance x vx i s = Done s' /\ modifies [x] i s s'.
Proof.
  intros Hx Hvx Hi. unfold advance. do 2 run_rd. run_wr.
  eexists; split; [done|mods].
Qed.

Lemma rebound_modifies x vx (width : F) i n s :
  vector s x n -> vector s vx n -> (i < n)%nat ->
  exists s', rebound x vx width i s = Done s' /\ modifies [x; vx] i s s'.
Proof.
  intros Hx Hvx Hi. unfold rebound. run_rd.
  destruct (_ || _).
  - run_rd. run_wr. run_rd. run_wr. eexists; split; [done|mods].
  - eexists; split; [done|mods].
Qed.

Lemma perturb_modifies (rnd : nat -> F) vx k i n s :
  vector s vx n -> (i < n)%nat ->
  exists s', PoorAreas.perturb rnd vx k i s = Done s' /\ modifies [vx] i s s'.
Proof.
  intros Hvx Hi. unfold PoorAreas.perturb. run_rd. run_wr.
  eexists; split; [done|mods].
Qed.

Lemma border_rebound_modifies new_x new_vx (width : F) i n s :
  vector s new_x n -> vector s new_vx n -> (i < n)%nat ->
  exists s', Mistral.border_rebound new_x new_vx width i s = Done s' /\
             modifies [new_x; new_vx] i s s'.
Proof.
  intros Hx Hvx Hi. unfold Mistral.border_rebound. run_rd.
  destruct (_ <? _).
  - run_wr. run_rd. run_wr. run_rd. destruct (_ <? _).
    + run_wr. run_rd. run_wr. eexists; split; [done|mods].
    + eexists; split; [done|mods].
  - cbn [bind]. run_rd. destruct (_ <? _).
    + run_wr. run_rd. run_wr. eexists; split; [done|mods].
    + eexists; split; [done|mods].
Qed.
End BlockFacts.

(** ** The simple update completes and writes the new vectors only *)

Section MistralFacts.
Context {F : Type} `{Arith F}.
Context (x y vx vy : loc) (max_speed max_force : F).
Context (vision_radius separation_radius : F).
Context (new_vx new_vy new_x new_y : loc) (n : nat) (width height : F).
Implicit Types (s : store F) (i j : nat).
Local Open Scope arith_scope.

Lemma scan_step_Done s i j a :
  vector s x n -> vector s y n -> vector s vx n -> vector s vy n ->
  (i < n)%nat -> (j < n)%nat ->
  exists a', Mistral.scan_step x y vx vy vision_radius separation_radius
               s i j a = Done a'.
Proof.
  intros Hx Hy Hvx Hvy Hi Hj. unfold Mistral.scan_step.
  destruct (decide _); [by eexists|]. repeat run_rd.
  repeat destruct (_ <? _); by eexists.
Qed.

Lemma scan_Done s i m :
  vector s x n -> vector s y n -> vector s vx n -> vector s vy n ->
  (i < n)%nat -> (m <= n)%nat ->
  exists a, for_loop m (Mistral.scan_step x y vx vy vision_radius
                          separation_radius s i) Mistral.scan0 = Done a.
Proof.
  intros Hx Hy Hvx Hvy Hi Hm.
  destruct (for_loop_invariant (fun _ _ => True)
              (Mistral.scan_step x y vx vy vision_radius separation_radius s i)
              Mistral.scan0 m I) as (a & Ha & _); [|by exists a].
  intros j a Hj _. destruct (scan_step_Done s i j a) as [a' ->];
    [done..|lia|]. by exists a'.
Qed.

Lemma steer_Done s i u :
  vector s vx n -> vector s vy n -> (i < n)%nat ->
  exists u', Mistral.steer vx vy max_speed max_force s i u = Done u'.
Proof.
  intros Hvx Hvy Hi. unfold Mistral.steer. destruct u as [ux uy].
  destruct (_ <? _); [|by eexists]. repeat run_rd. by eexists.
Qed.

Lemma separation_Done s i a :
  vector s vx n -> vector s vy n -> (i < n)%nat ->
  exists u, Mistral.separation vx vy max_speed max_force s i a = Done u.
Proof.
  intros Hvx Hvy Hi. unfold Mistral.separation.
  destruct (_ <? _)%nat; [by apply steer_Done|by eexists].
Qed.

Lemma alignment_Done s i a :
  vector s vx n -> vector s vy n -> (i < n)%nat ->
  exists u, Mistral.alignment vx vy max_speed max_force s i a = Done u.
Proof.
  intros Hvx Hvy Hi. unfold Mistral.alignment.
  destruct (_ <? _)%nat; [by apply steer_Done|by eexists].
Qed.

Lemma cohesion_Done s i a :
  vector s x n -> vector s y n -> vector s vx n -> vector s vy n ->
  (i < n)%nat ->
  exists u, Mistral.cohesion x y vx vy max_speed max_force s i a = Done u.
Proof.
  intros Hx Hy Hvx Hvy Hi. unfold Mistral.cohesion.
  destruct (_ <? _)%nat; [|by eexists]. repeat run_rd. by apply steer_Done.
Qed.

Lemma new_velocity_modifies s i :
  mistral_vectors x y vx vy new_vx new_vy new_x new_y n s -> (i < n)%nat ->
  exists s', Mistral.new_velocity x y vx vy max_speed max_force vision_radius
               separation_radius new_vx new_vy n i s = Done s' /\
             modifies [new_vx; new_vy] i s s'.
Proof.
  intros (Hx & Hy & Hvx & Hvy & Hnvx & Hnvy & Hnx & Hny) Hi.
  unfold Mistral.new_velocity.
  destruct (scan_Done s i n) as [a ->]; [done..|]. cbn [bind].
  destruct (separation_Done s i a) as [[sx sy] ->]; [done..|]. cbn [bind].
  destruct (alignment_Done s i a) as [[lx ly] ->]; [done..|]. cbn [bind].
  destruct (cohesion_Done s i a) as [[cx cy] ->]; [done..|]. cbn [bind].
  run_rd. run_wr. run_rd. run_wr.
  eexists; split; [done|mods].
Qed.

Lemma new_position_modifies s i :
  mistral_vectors x y vx vy new_vx new_vy new_x new_y n s -> (i < n)%nat ->
  exists s', Mistral.new_position x y new_vx new_vy new_x new_y i s
             = Done s' /\
             modifies [new_x; new_y] i s s'.
Proof.
  intros (Hx & Hy & Hvx & Hvy & Hnvx & Hnvy & Hnx & Hny) Hi.
  unfold Mistral.new_position.
  run_rd. run_rd. run_wr. run_rd. run_rd. run_wr.
  eexists; split; [done|mods].
Qed.

Lemma mistral_boid_step_modifies s i :
  mistral_vectors x y vx vy new_vx new_vy new_x new_y n s -> (i < n)%nat ->
  exists s', Mistral.boid_step x y vx vy max_speed max_force vision_radius
               separation_radius new_vx new_vy new_x new_y n width height i s
             = Done s' /\
             modifies [new_vx; new_vy; new_x; new_y] i s s'.
Proof.
  intros Hs Hi. unfold Mistral.boid_step.
  run (new_velocity_modifies s i) as s1 M1.
  pose proof Hs as (Hx & Hy & Hvx & Hvy & Hnvx & Hnvy & Hnx & Hny).
  run (limit_speed_modifies new_vx new_vy max_speed i n) as s2 M2.
  run (new_position_modifies s2 i) as s3 M3.
  run (border_rebound_modifies new_x new_vx width i n) as s4 M4.
  run (border_rebound_modifies new_y new_vy height i n) as s5 M5.
  eexists; split; [done|mods].
Qed.

(** Whatever the number of iterations done, the loop over i has written
    the new vectors only: the scan of every boid reads the columns as they
    were at the start of the tick. *)
Lemma mistral_loop_frame s k :
  mistral_vectors x y vx vy new_vx new_vy new_x new_y n s -> (k <= n)%nat ->
  exists s',
    for_loop k (Mistral.boid_step x y vx vy max_speed max_force vision_radius
                  separation_radius new_vx new_vy new_x new_y n width height) s
      = Done s' /\
    shape s' = shape s /\
    forall v, v ∉ [new_vx; new_vy; new_x; new_y] -> s' !! v = s !! v.
Proof.
  intros Hs Hk.
  apply (for_loop_invariant
    (fun (_ : nat) (st : store F) =>
       shape st = shape s /\
       forall v, v ∉ [new_vx; new_vy; new_x; new_y] -> st !! v = s !! v)).
  { by split. }
  intros i st Hi [Sh Hst].
  destruct (mistral_boid_step_modifies st i) as (st' & -> & M); [|lia|].
  { unfold mistral_vectors, vector in *. by rewrite Sh. }
  exists st'. split; [done|]. split; [destruct M; congruence|].
  intros v Hv. rewrite <- Hst by done. by eapply modifies_lookup.
Qed.
End MistralFacts.

(** After any number of iterations of the loop of the simple update, every
    vector that the heap had before the call is as it was: the scan of
    every boid reads the start-of-tick columns. *)
Lemma update_boids_scans_start_of_tick {F : Type} `{Arith F}
    (boids : DataFrame)
    (max_speed max_force vision_radius separation_radius width height : F)
    (s : store F) (k : nat) :
  well_formed s boids -> (k <= nrows boids)%nat ->
  let n := nrows boids in
  let '(new_vx, s1) := alloc s n in
  let '(new_vy, s2) := alloc s1 n in
  let '(new_x, s3) := alloc s2 n in
  let '(new_y, s4) := alloc s3 n in
  exists st,
    for_loop k
      (Mistral.boid_step (col_x boids) (col_y boids) (col_vx boids)
         (col_vy boids) max_speed max_force vision_radius separation_radius
         new_vx new_vy new_x new_y n width height) s4 = Done st /\
    forall v, (v < length s)%nat -> st !! v = s !! v.
Proof.
  intros ((Hx & Hy) & Hvx & Hvy) Hk. unfold alloc. cbv zeta.
  set (n := nrows boids) in *. set (z := replicate n fzero).
  rewrite !length_app. cbn [length].
  replace ((((s ++ [z]) ++ [z]) ++ [z]) ++ [z]) with (s ++ [z; z; z; z])
    by (by rewrite <- !app_assoc).
  assert (Hz : length z = n) by apply length_replicate.
  edestruct (mistral_loop_frame (col_x boids) (col_y boids) (col_vx boids)
               (col_vy boids) max_speed max_force vision_radius
               separation_radius (length s + 0) (length s + 1)
               (length s + 1 + 1) (length s + 1 + 1 + 1) n width height
               (s ++ [z; z; z; z]) k) as (st & Hrun & _ & Hkeep); [|done|].
  { unfold mistral_vectors.
    split_and!; try (by apply vector_app); rewrite <- Hz, <- ?Nat.add_assoc;
      by apply vector_new. }
  rewrite Nat.add_0_r in Hrun, Hkeep. exists st. split; [done|].
  intros v Hv.
  rewrite Hkeep by (rewrite !not_elem_of_cons; split_and!; try lia;
                    apply not_elem_of_nil).
  by apply lookup_app_l.
Qed.

(** The simple update completes on a well-formed flock and leaves every
    vector that the heap had before the call as it was: its results are in
    the four vectors that it allocates. *)
Lemma update_boids_keeps_its_input {F : Type} `{Arith F} (boids : DataFrame)
    (max_speed max_force vision_radius separation_radius width height : F)
    (s : store F) :
  well_formed s boids ->
  exists out s',
    Mistral.update_boids boids max_speed max_force vision_radius
      separation_radius width height s = Done (out, s') /\
    forall v, (v < length s)%nat -> s' !! v = s !! v.
Proof.
  intros Hb.
  pose proof (update_boids_scans_start_of_tick boids max_speed max_force
                vision_radius separation_radius width height s (nrows boids)
                Hb (le_n _)) as Hloop.
  unfold Mistral.update_boids. cbv zeta in Hloop.
  destruct (alloc s (nrows boids)) as [new_vx s1].
  destruct (alloc s1 (nrows boids)) as [new_vy s2].
  destruct (alloc s2 (nrows boids)) as [new_x s3].
  destruct (alloc s3 (nrows boids)) as [new_y s4].
  destruct Hloop as (s' & -> & Hkeep). cbn [bind]. by do 2 eexists.
Qed.

(** The heap after the four allocations of the simple update. *)
Lemma mistral_allocation {F : Type} `{Arith F} (boids : DataFrame)
    (s : store F) :
  well_formed s boids ->
  let n := nrows boids in
  let z := replicate n fzero in
  (((s ++ [z]) ++ [z]) ++ [z]) ++ [z] = s ++ [z; z; z; z] /\
  mistral_vectors (col_x boids) (col_y boids) (col_vx boids) (col_vy boids)
    (length s) (length s + 1) (length s + 1 + 1) (length s + 1 + 1 + 1) n
    (s ++ [z; z; z; z]) /\
  NoDup [length s; length s + 1; length s + 1 + 1; length s + 1 + 1 + 1]%nat.
Proof.
  intros ((Hx & Hy) & Hvx & Hvy) n z. split; [by rewrite <- !app_assoc|].
  assert (Hz : length z = n) by apply length_replicate. split.
  - rewrite <- (Nat.add_0_r (length s)) at 1. unfold mistral_vectors.
    split_and!; try (by apply vector_app); rewrite <- Hz, <- ?Nat.add_assoc;
      by apply vector_new.
  - rewrite !NoDup_cons, !not_elem_of_cons.
    split_and!; try lia; try apply not_elem_of_nil. apply NoDup_nil_2.
Qed.

(** ** The extended update: completion, and the missing radius *)

Section PoorAreasFacts.
Context {F : Type} `{Arith F}.
Context (x y vx vy px py ax ay : loc).
Context (max_speed neighbor_radius predator_radius : F) (area_radius : loc).
Context (n_boids n_predators n_areas : nat) (width height : F).
Context (separation_weight alignment_weight cohesion_weight : F).
Context (predator_avoid_weight area_avoid_weight : F).
Context (rnd : nat -> F).
Implicit Types (s : store F) (i j k : nat).
Local Open Scope arith_scope.

Lemma neighbor_scan_Done s i m :
  flock_vectors x y vx vy n_boids s -> (i < n_boids)%nat -> (m <= n_boids)%nat ->
  exists a, for_loop m (PoorAreas.neighbor_step x y vx vy neighbor_radius s i)
              PoorAreas.scan0 = Done a.
Proof.
  intros (Hx & Hy & Hvx & Hvy) Hi Hm.
  destruct (for_loop_invariant (fun _ _ => True)
              (PoorAreas.neighbor_step x y vx vy neighbor_radius s i)
              PoorAreas.scan0 m I) as (a & Ha & _); [|by exists a].
  intros j a Hj _. unfold PoorAreas.neighbor_step.
  destruct (decide _); [by eexists|]. repeat run_rd.
  destruct (_ <? _); by eexists.
Qed.

Lemma avoid_predator_scan_Done s i m :
  flock_vectors x y vx vy n_boids s -> vector s px n_predators -> vector s py n_predators ->
  (i < n_boids)%nat -> (m <= n_predators)%nat ->
  exists u, for_loop m (PoorAreas.avoid_predator_step x y px py
                          predator_radius s i) (fzero, fzero) = Done u.
Proof.
  intros (Hx & Hy & Hvx & Hvy) Hpx Hpy Hi Hm.
  destruct (for_loop_invariant (fun _ _ => True)
              (PoorAreas.avoid_predator_step x y px py predator_radius s i)
              (fzero, fzero) m I) as (a & Ha & _); [|by exists a].
  intros j a Hj _. unfold PoorAreas.avoid_predator_step. repeat run_rd.
  destruct (_ <? _); by eexists.
Qed.

(** The loop over the areas reads area_radius[k] for every k below n_areas:
    it completes as far as the radius vector reaches ... *)
Lemma avoid_area_scan_Done s i m r :
  flock_vectors x y vx vy n_boids s -> vector s ax n_areas -> vector s ay n_areas ->
  vector s area_radius r ->
  (i < n_boids)%nat -> (m <= n_areas)%nat -> (m <= r)%nat ->
  exists u, for_loop m (PoorAreas.avoid_area_step x y ax ay area_radius s i)
              (fzero, fzero) = Done u.
Proof.
  intros (Hx & Hy & Hvx & Hvy) Hax Hay Hr Hi Hm Hmr.
  destruct (for_loop_invariant (fun _ _ => True)
              (PoorAreas.avoid_area_step x y ax ay area_radius s i)
              (fzero, fzero) m I) as (a & Ha & _); [|by exists a].
  intros j a Hj _. unfold PoorAreas.avoid_area_step. repeat run_rd.
  destruct (_ <? _); by eexists.
Qed.


Lemma poor_areas_steer_Done s i u :
  vector s vx n_boids -> vector s vy n_boids -> (i < n_boids)%nat ->
  exists u', PoorAreas.steer vx vy max_speed s i u = Done u'.
Proof.
  intros Hvx Hvy Hi. unfold PoorAreas.steer. repeat run_rd. by eexists.
Qed.

Lemma accelerate_modifies s i r :
  scanned_vectors x y vx vy px py ax ay n_boids n_predators n_areas s ->
  vector s area_radius r -> (n_areas <= r)%nat ->
  (i < n_boids)%nat ->
  exists s', PoorAreas.accelerate x y vx vy px py ax ay max_speed
               neighbor_radius predator_radius area_radius n_boids
               n_predators n_areas
               separation_weight alignment_weight cohesion_weight
               predator_avoid_weight area_avoid_weight i s = Done s' /\
             modifies [vx; vy] i s s'.
Proof.
  intros (Hs & Hpx & Hpy & Hax & Hay) Hr Hle Hi. unfold PoorAreas.accelerate.
  destruct (neighbor_scan_Done s i n_boids) as [a ->]; [done..|].
  destruct (avoid_predator_scan_Done s i n_predators) as [p ->]; [done..|].
  destruct (avoid_area_scan_Done s i n_areas r) as [q ->]; [done..|].
  destruct Hs as (Hx & Hy & Hvx & Hvy). cbn [bind].
  assert (Hsteer : forall u, exists u',
            PoorAreas.steer vx vy max_speed s i u = Done u')
    by (intros; by apply poor_areas_steer_Done).
  assert (exists u, PoorAreas.separation vx vy max_speed s i a = Done u)
    as [u1 ->].
  { unfold PoorAreas.separation. destruct (_ <? _)%nat; [done|by eexists]. }
  assert (exists u, PoorAreas.alignment vx vy max_speed s i a = Done u)
    as [u2 ->].
  { unfold PoorAreas.alignment. destruct (_ <? _)%nat; [done|by eexists]. }
  assert (exists u, PoorAreas.cohesion x y vx vy max_speed s i a = Done u)
    as [u3 ->].
  { unfold PoorAreas.cohesion. destruct (_ <? _)%nat; [|by eexists].
    by repeat run_rd. }
  assert (Havoid : forall u, exists u',
            PoorAreas.avoidance vx vy max_speed s i u = Done u').
  { intros u. unfold PoorAreas.avoidance.
    destruct (_ <? _); [done|by eexists]. }
  destruct (Havoid p) as [u4 ->]. destruct (Havoid q) as [u5 ->].
  cbn [bind]. run_rd. run_wr. run_rd. run_wr.
  eexists; split; [done|mods].
Qed.

Lemma poor_areas_boid_step_modifies s i r :
  scanned_vectors x y vx vy px py ax ay n_boids n_predators n_areas s ->
  vector s area_radius r -> (n_areas <= r)%nat ->
  (i < n_boids)%nat ->
  exists s', PoorAreas.boid_step x y vx vy px py ax ay max_speed
               neighbor_radius predator_radius area_radius n_boids
               n_predators n_areas width height
               separation_weight alignment_weight cohesion_weight
               predator_avoid_weight area_avoid_weight rnd i s = Done s' /\
             modifies [x; y; vx; vy] i s s'.
Proof.
  intros Hs Hr Hle Hi. unfold PoorAreas.boid_step.
  run (accelerate_modifies s i r) as s1 M1.
  destruct Hs as ((Hx & Hy & Hvx & Hvy) & _).
  run (limit_speed_modifies vx vy max_speed i n_boids) as s2 M2.
  run (perturb_modifies rnd vx (2 * i)%nat i n_boids) as s3 M3.
  run (perturb_modifies rnd vy (2 * i + 1)%nat i n_boids) as s4 M4.
  run (advance_modifies x vx i n_boids) as s5 M5.
  run (advance_modifies y vy i n_boids) as s6 M6.
  run (rebound_modifies x vx width i n_boids) as s7 M7.
  run (rebound_modifies y vy height i n_boids) as s8 M8.
  eexists; split; [done|mods].
Qed.

End PoorAreasFacts.

(** What follows the steering in the predator update completes and writes
    cell [i] of the predators' columns only. *)
Lemma coast_modifies {F : Type} `{Arith F} (px py pvx pvy : loc)
    (width height max_speed pred_rel_speed : F) (i n : nat) (s : store F) :
  vector s px n -> vector s py n -> vector s pvx n -> vector s pvy n ->
  (i < n)%nat ->
  exists s', PoorAreas.coast px py pvx pvy width height max_speed
               pred_rel_speed i s = Done s' /\
             modifies [px; py; pvx; pvy] i s s'.
Proof.
  intros Hpx Hpy Hpvx Hpvy Hi. unfold PoorAreas.coast.
  assert (exists s1, PoorAreas.limit_predator_speed pvx pvy max_speed
                       pred_rel_speed i s = Done s1 /\
                     modifies [pvx; pvy] i s s1) as (s1 & -> & M1).
  { unfold PoorAreas.limit_predator_speed. do 2 run_rd.
    destruct (fltb _ _).
    - run_wr. run_rd. run_wr. eexists; split; [done|mods].
    - eexists; split; [done|mods]. }
  pose proof M1 as [Sh1 _]. cbn [bind].
  run (advance_modifies px pvx i n s1) as s2 M2.
  run (advance_modifies py pvy i n s2) as s3 M3.
  run (rebound_modifies px pvx width i n s3) as s4 M4.
  run (rebound_modifies py pvy height i n s4) as s5 M5.
  eexists; split; [done|mods].
Qed.

(** The extended update completes on well-formed inputs and writes the
    four columns of the flock only. *)
Lemma update_boids_cpp_frame {F : Type} `{Arith F}
    (boids predators areas : DataFrame)
    (width height max_speed max_force neighbor_radius predator_radius : F)
    (area_radius : loc)
    (separation_weight alignment_weight cohesion_weight : F)
    (predator_avoid_weight area_avoid_weight : F)
    (rnd : nat -> F) (s : store F) (r : nat) :
  well_formed s boids -> positions s predators -> positions s areas ->
  vector s area_radius r -> (nrows areas <= r)%nat ->
  exists s',
    PoorAreas.update_boids_cpp boids predators areas width height max_speed
      max_force neighbor_radius predator_radius area_radius
      separation_weight alignment_weight cohesion_weight
      predator_avoid_weight area_avoid_weight rnd s
    = Done ({| nrows := nrows boids;
               col_x := col_x boids; col_y := col_y boids;
               col_vx := col_vx boids; col_vy := col_vy boids |}, s') /\
    shape s' = shape s /\
    forall v, v ∉ [col_x boids; col_y boids; col_vx boids; col_vy boids] ->
              s' !! v = s !! v.
Proof.
  intros ((Hx & Hy) & Hvx & Hvy) [Hpx Hpy] [Hax Hay] Hr Hle.
  unfold PoorAreas.update_boids_cpp.
  edestruct (for_loop_cells
    (PoorAreas.boid_step (col_x boids) (col_y boids) (col_vx boids)
       (col_vy boids) (col_x predators) (col_y predators) (col_x areas)
       (col_y areas) max_speed neighbor_radius predator_radius area_radius
       (nrows boids) (nrows predators) (nrows areas) width height
       separation_weight alignment_weight cohesion_weight
       predator_avoid_weight area_avoid_weight rnd)
    [col_x boids; col_y boids; col_vx boids; col_vy boids]
    (fun _ _ => True)) as (s' & -> & Sh & Hkeep & _); [| |by exists s'].
  - intros k st Hk Sh.
    edestruct (poor_areas_boid_step_modifies) as (st' & -> & M);
      [| |exact Hle|exact Hk|by exists st'].
    + unfold scanned_vectors, flock_vectors, vector in *. rewrite Sh.
      split_and!; eassumption.
    + unfold vector in *. rewrite Sh. exact Hr.
  - done.
Qed.

(** ** Which state the scans read, and where the results go *)

Section StartOfTick.
Import Examples.
Local Open Scope float_scope.

(** C1.  The scan of a boid must read start-of-tick values only.  The
    simple update does: after any number of iterations of its loop, every
    vector that the heap had before the call is as it was.  The extended
    update does not: it writes the columns that its scans read.  Two boids
    are three units apart, the neighbour radius is 2.5, only alignment is
    weighted.  Boid 0 moves from 0 to 1; the tick then moves boid 1 to 4
    with velocity 1, because its scan finds boid 0 at distance 2; on the
    start-of-tick state the same loop body leaves boid 1 at 3 with velocity
    0, which is also what the simple update returns for it. *)
Theorem update_boids_cpp_scans_updated_boids :
  (forall (F : Type) (A : Arith F) (boids : DataFrame)
          (max_speed max_force vision_radius separation_radius : F)
          (width height : F) (s : store F) (k : nat),
     well_formed s boids -> (k <= nrows boids)%nat ->
     let n := nrows boids in
     let '(new_vx, s1) := alloc s n in
     let '(new_vy, s2) := alloc s1 n in
     let '(new_x, s3) := alloc s2 n in
     let '(new_y, s4) := alloc s3 n in
     exists st,
       for_loop k
         (Mistral.boid_step (col_x boids) (col_y boids) (col_vx boids)
            (col_vy boids) max_speed max_force vision_radius
            separation_radius new_vx new_vy new_x new_y n width height) s4
         = Done st /\
       forall v, (v < length s)%nat -> st !! v = s !! v)
  /\ PoorAreas.update_boids_cpp (frame_0_3 2) nobody nobody
       100 100 2 0.5 2.5 1 radii 0 1 0 1 1 calm two_apart
     = Done (frame_0_3 2, heap [1; 4] [0; 0] [1; 1] [0; 0] [] [] [] [] [])
  /\ PoorAreas.boid_step 0 1 2 3 9 10 9 10 2 2.5 1 radii 2 0 0
       100 100 0 1 0 1 1 calm 1 two_apart
     = Done (heap [0; 3] [0; 0] [1; 0] [0; 0] [] [] [] [] [])
  /\ Mistral.update_boids (frame_0_3 2) 2 0.5 2.5 2.5 100 100 two_apart
     = Done ({| nrows := 2; col_x := 15; col_y := 16;
                col_vx := 13; col_vy := 14 |},
             two_apart ++ [[1; 0]; [0; 0]; [1; 3]; [0; 0]]).
Proof.
  split; [|repeat split; vm_compute; reflexivity].
  intros F A boids max_speed max_force vision_radius separation_radius
    width height s k Hb Hk.
  by apply update_boids_scans_start_of_tick.
Qed.

(** C3.  A call must leave its input arrays as they were.  The simple
    update does: it completes on a well-formed flock with every vector that
    the heap had before the call unchanged.  The extended flock update
    leaves the vectors of the predators, of the areas and of the radii
    unchanged, but it overwrites the four columns of the flock, and the
    predator update overwrites the columns of the predators: after the
    flock update the caller's columns x and vx (the heap vectors 0 and 2)
    hold the next-tick values, and after the predator update so does the
    predators' column x. *)
Theorem extended_updates_overwrite_their_input :
  (forall (F : Type) (A : Arith F) (boids : DataFrame)
          (max_speed max_force vision_radius separation_radius : F)
          (width height : F) (s : store F),
     well_formed s boids ->
     exists out s',
       Mistral.update_boids boids max_speed max_force vision_radius
         separation_radius width height s = Done (out, s') /\
       forall v, (v < length s)%nat -> s' !! v = s !! v)
  /\ (forall (F : Type) (A : Arith F) (boids predators areas : DataFrame)
          (width height max_speed max_force : F)
          (neighbor_radius predator_radius : F) (area_radius : loc)
          (separation_weight alignment_weight cohesion_weight : F)
          (predator_avoid_weight area_avoid_weight : F)
          (rnd : nat -> F) (s : store F) (r : nat),
     well_formed s boids -> positions s predators -> positions s areas ->
     vector s area_radius r -> (nrows areas <= r)%nat ->
     exists out s',
       PoorAreas.update_boids_cpp boids predators areas width height
         max_speed max_force neighbor_radius predator_radius area_radius
         separation_weight alignment_weight cohesion_weight
         predator_avoid_weight area_avoid_weight rnd s = Done (out, s') /\
       forall v,
         v ∉ [col_x boids; col_y boids; col_vx boids; col_vy boids] ->
         s' !! v = s !! v)
  /\ two_apart !! 0%nat = Some [0; 3]
  /\ two_apart !! 2%nat = Some [1; 0]
  /\ (exists s',
        PoorAreas.update_boids_cpp (frame_0_3 2) nobody nobody
          100 100 2 0.5 2.5 1 radii 0 1 0 1 1 calm two_apart
        = Done (frame_0_3 2, s')
        /\ s' !! 0%nat = Some [1; 4] /\ s' !! 2%nat = Some [1; 1])
  /\ lone_predator 1 0 !! 0%nat = Some [5]
  /\ (exists s',
        PoorAreas.update_predators_cpp (frame_0_3 1) nobody
          100 100 10 1 (lone_predator 1 0)
        = Done (frame_0_3 1, s')
        /\ s' !! 0%nat = Some [6]).
Proof.
  split.
  { intros F A boids max_speed max_force vision_radius separation_radius
      width height s Hb. by apply update_boids_keeps_its_input. }
  split.
  { intros F A boids predators areas width height max_speed max_force
      neighbor_radius predator_radius area_radius separation_weight
      alignment_weight cohesion_weight predator_avoid_weight
      area_avoid_weight rnd s r Hb Hp Ha Hr Hle.
    edestruct (update_boids_cpp_frame boids predators areas width height
                 max_speed max_force neighbor_radius predator_radius
                 area_radius separation_weight alignment_weight
                 cohesion_weight predator_avoid_weight area_avoid_weight
                 rnd s r) as (s' & Hrun & _ & Hkeep); [done..|].
    by do 2 eexists. }
  split; [reflexivity|]. split; [reflexivity|]. split.
  - eexists. split; [vm_compute; reflexivity|]. split; reflexivity.
  - split; [reflexivity|].
    eexists. split; [vm_compute; reflexivity|]. reflexivity.
Qed.
End StartOfTick.

(** ** Division by the distance *)

Section ZeroDistance.
Import Examples.
Local Open Scope float_scope.

(** C2.  The extended flock update divides by the distance d without
    testing d == 0.  Whatever the heap, for two boids i <> j at the same
    point and a positive radius, d is 0 and the step of the scan does not
    skip the pair: it counts it and adds the quotients (x[i] - x[j]) / d and
    (y[i] - y[j]) / d to the separation vector.  In binary64 these are
    0/0 = NaN: the pair is counted (sep_total = 1), and the boid comes back
    with NaN position and velocity; the same holds for a boid on a predator
    and for a boid on an area.  The predator update, which tests [d > 0],
    leaves the velocity of a predator that sits on its prey as it was. *)
Theorem update_boids_cpp_divides_by_zero_distance :
  (forall (x y vx vy : loc) (s : store R) (i j : nat)
          (xi yi vxj vyj radius : R) (a : PoorAreas.scan),
     i <> j ->
     rd s x i = Done xi -> rd s y i = Done yi ->
     rd s x j = Done xi -> rd s y j = Done yi ->
     rd s vx j = Done vxj -> rd s vy j = Done vyj ->
     (0 < radius)%R ->
     let d := sqrt ((xi - xi) * (xi - xi) + (yi - yi) * (yi - yi)) in
     d = 0%R /\
     PoorAreas.neighbor_step x y vx vy radius s i j a
     = Done {| PoorAreas.sep := ((fst (PoorAreas.sep a) + (xi - xi) / d)%R,
                                 (snd (PoorAreas.sep a) + (yi - yi) / d)%R);
               PoorAreas.sep_total := S (PoorAreas.sep_total a);
               PoorAreas.ali := ((fst (PoorAreas.ali a) + vxj)%R,
                                 (snd (PoorAreas.ali a) + vyj)%R);
               PoorAreas.ali_total := S (PoorAreas.ali_total a);
               PoorAreas.coh := ((fst (PoorAreas.coh a) + xi)%R,
                                 (snd (PoorAreas.coh a) + yi)%R);
               PoorAreas.coh_total := S (PoorAreas.coh_total a) |})
  /\ PoorAreas.neighbor_step 0 1 2 3 1 two_coincident 0 1 PoorAreas.scan0
     = Done {| PoorAreas.sep := (nan, nan); PoorAreas.sep_total := 1;
               PoorAreas.ali := (0, 0); PoorAreas.ali_total := 1;
               PoorAreas.coh := (1, 1); PoorAreas.coh_total := 1 |}
  /\ PoorAreas.update_boids_cpp (frame_0_3 2) nobody nobody
       100 100 2 0.5 1 1 radii 1 1 1 1 1 calm two_coincident
     = Done (frame_0_3 2,
             heap [nan; 1] [nan; 1] [nan; 0] [nan; 0] [] [] [] [] [])
  /\ PoorAreas.avoid_predator_step 0 1 4 5 1 boid_on_predator 0 0 (0, 0)
     = Done (nan, nan)
  /\ PoorAreas.update_boids_cpp (frame_0_3 1) (frame_4_7 1) nobody
       100 100 2 0.5 1 1 radii 1 1 1 1 1 calm boid_on_predator
     = Done (frame_0_3 1, heap [nan] [nan] [nan] [nan] [1] [1] [0] [0] [2])
  /\ PoorAreas.avoid_area_step 0 1 4 5 radii boid_on_predator 0 0 (0, 0)
     = Done (nan, nan)
  /\ PoorAreas.update_boids_cpp (frame_0_3 1) nobody (frame_4_7 1)
       100 100 2 0.5 1 1 radii 1 1 1 1 1 calm boid_on_predator
     = Done (frame_0_3 1, heap [nan] [nan] [nan] [nan] [1] [1] [0] [0] [2])
  /\ PoorAreas.update_predators_cpp (frame_4_7 1) (frame_0_3 1) 100 100 2 1
       boid_on_predator
     = Done (frame_4_7 1, boid_on_predator).
Proof.
  split; [|repeat split; vm_compute; reflexivity].
  intros x y vx vy s i j xi yi vxj vyj radius a Hij Hxi Hyi Hxj Hyj Hvx Hvy
    Hr d.
  assert (Hd : d = 0%R).
  { unfold d. replace ((xi - xi) * (xi - xi) + (yi - yi) * (yi - yi))%R
      with 0%R by ring. apply sqrt_0. }
  split; [done|]. unfold PoorAreas.neighbor_step.
  rewrite decide_False by done. rewrite Hxi, Hyi, Hxj, Hyj, Hvx, Hvy.
  cbn [bind fltb fadd fsub fmul fdiv fsqrt real_arith]. fold d.
  replace (Rltb d radius) with true; [done|].
  symmetry. apply Rltb_true. by rewrite Hd.
Qed.
End ZeroDistance.

(** ** The radius vector of the extended update *)

Section MissingRadius.
Import Examples.
Local Open Scope float_scope.

End MissingRadius.



(** ** The order of binary64

    The comparisons of the code are those of IEEE 754: every comparison
    with NaN is false, and on the other values, the two infinities
    included, the order is total.  The facts are read off the
    specification of the primitive floats. *)

Section Binary64Order.
Local Open Scope float_scope.
Implicit Types (a b c : float) (x y z : spec_float).

Lemma SFcompare_antisym x y :
  SFcompare y x = CompOpp <$> SFcompare x y.
Proof.
  destruct x as [sx|sx| |sx mx ex], y as [sy|sy| |sy my ey]; simpl;
    try done; try (by destruct sx); try (by destruct sy);
    try (by destruct sx, sy).
  destruct sx, sy; simpl; try done;
    rewrite (Z.compare_antisym ey ex);
    destruct (ey ?= ex)%Z; simpl; try done;
    change (Pos.compare_cont Eq ?p ?q) with (Pos.compare p q);
    rewrite (Pos.compare_antisym mx my); by destruct (mx ?= my)%positive.
Qed.

Lemma SFcompare_refl x : x <> S754_nan -> SFcompare x x = Some Eq.
Proof.
  destruct x as [s|s| |s m e]; simpl; try done; try (by destruct s).
  intros _. destruct s; rewrite Z.compare_refl;
    change (Pos.compare_cont Eq ?p ?q) with (Pos.compare p q);
    by rewrite Pos.compare_refl.
Qed.

Lemma SFcompare_None x y :
  SFcompare x y = None <-> x = S754_nan \/ y = S754_nan.
Proof.
  destruct x as [sx|sx| |sx mx ex], y as [sy|sy| |sy my ey]; simpl;
    split; try done; try (by intros [|]); try (by left); try (by right).
Qed.

Lemma SFcompare_Lt_trans x y z :
  SFcompare x y = Some Lt -> SFcompare y z = Some Lt ->
  SFcompare x z = Some Lt.
Proof.
  destruct x as [sx|sx| |sx mx ex], y as [sy|sy| |sy my ey],
    z as [sz|sz| |sz mz ez]; simpl; try done;
    try (by destruct sx); try (by destruct sy); try (by destruct sz);
    try (by destruct sx, sy); try (by destruct sy, sz);
    try (by destruct sx, sz); try (by destruct sx, sy, sz).
  change (Pos.compare_cont Eq ?p ?q) with (Pos.compare p q).
  destruct sx, sy, sz; try done;
    destruct (Z.compare_spec ex ey), (Z.compare_spec ey ez),
      (Z.compare_spec ex ez); try done; try lia; subst;
    destruct (Pos.compare_spec mx my), (Pos.compare_spec my mz),
      (Pos.compare_spec mx mz); simpl; try done; try lia.
Qed.

Lemma SFcompare_Lt_Eq_trans x y z :
  SFcompare x y = Some Lt -> SFcompare y z = Some Eq ->
  SFcompare x z = Some Lt.
Proof.
  destruct x as [sx|sx| |sx mx ex], y as [sy|sy| |sy my ey],
    z as [sz|sz| |sz mz ez]; simpl; try done;
    try (by destruct sx); try (by destruct sy); try (by destruct sz);
    try (by destruct sx, sy); try (by destruct sy, sz);
    try (by destruct sx, sz); try (by destruct sx, sy, sz).
  change (Pos.compare_cont Eq ?p ?q) with (Pos.compare p q).
  destruct sx, sy, sz; try done;
    destruct (Z.compare_spec ex ey), (Z.compare_spec ey ez),
      (Z.compare_spec ex ez); try done; try lia; subst;
    destruct (Pos.compare_spec mx my), (Pos.compare_spec my mz),
      (Pos.compare_spec mx mz); simpl; try done; try lia.
Qed.

Lemma SFcompare_Eq_Lt_trans x y z :
  SFcompare x y = Some Eq -> SFcompare y z = Some Lt ->
  SFcompare x z = Some Lt.
Proof.
  destruct x as [sx|sx| |sx mx ex], y as [sy|sy| |sy my ey],
    z as [sz|sz| |sz mz ez]; simpl; try done;
    try (by destruct sx); try (by destruct sy); try (by destruct sz);
    try (by destruct sx, sy); try (by destruct sy, sz);
    try (by destruct sx, sz); try (by destruct sx, sy, sz).
  change (Pos.compare_cont Eq ?p ?q) with (Pos.compare p q).
  destruct sx, sy, sz; try done;
    destruct (Z.compare_spec ex ey), (Z.compare_spec ey ez),
      (Z.compare_spec ex ez); try done; try lia; subst;
    destruct (Pos.compare_spec mx my), (Pos.compare_spec my mz),
      (Pos.compare_spec mx mz); simpl; try done; try lia.
Qed.

Lemma SFcompare_self x :
  SFcompare x x = match x with S754_nan => None | _ => Some Eq end.
Proof. destruct x; try done; by apply SFcompare_refl. Qed.

Lemma is_nan_spec a : is_nan a = true <-> Prim2SF a = S754_nan.
Proof.
  unfold is_nan. rewrite FloatAxioms.eqb_spec. unfold SFeqb.
  rewrite SFcompare_self. by destruct (Prim2SF a).
Qed.

Lemma is_nan_false a : is_nan a = false <-> Prim2SF a <> S754_nan.
Proof.
  rewrite <- is_nan_spec. destruct (is_nan a); split; congruence.
Qed.

Lemma ltb_irrefl a : (a <? a) = false.
Proof.
  rewrite FloatAxioms.ltb_spec. unfold SFltb. rewrite SFcompare_self.
  by destruct (Prim2SF a).
Qed.

Lemma ltb_not_nan a b :
  (a <? b) = true -> is_nan a = false /\ is_nan b = false.
Proof.
  rewrite FloatAxioms.ltb_spec, !is_nan_false. unfold SFltb.
  destruct (SFcompare _ _) eqn:E; [|done]. intros _.
  split; intros Hn; rewrite Hn in E; [done|].
  by destruct (Prim2SF a).
Qed.

Lemma leb_not_nan a b :
  (a <=? b) = true -> is_nan a = false /\ is_nan b = false.
Proof.
  rewrite FloatAxioms.leb_spec, !is_nan_false. unfold SFleb.
  destruct (SFcompare _ _) eqn:E; [|done]. intros _.
  split; intros Hn; rewrite Hn in E; [done|].
  by destruct (Prim2SF a).
Qed.

Lemma ltb_asym a b : (a <? b) = true -> (b <? a) = false.
Proof.
  rewrite !FloatAxioms.ltb_spec. unfold SFltb.
  rewrite (SFcompare_antisym (Prim2SF a) (Prim2SF b)).
  by destruct (SFcompare _ _) as [[]|].
Qed.

Lemma ltb_leb a b : (a <? b) = true -> (a <=? b) = true.
Proof.
  rewrite FloatAxioms.ltb_spec, FloatAxioms.leb_spec. unfold SFltb, SFleb.
  by destruct (SFcompare _ _) as [[]|].
Qed.

Lemma leb_refl a : is_nan a = false -> (a <=? a) = true.
Proof.
  rewrite is_nan_false, FloatAxioms.leb_spec. unfold SFleb. intros Hn.
  by rewrite SFcompare_refl.
Qed.

(** On numbers the order is total. *)
Lemma not_ltb_leb a b :
  is_nan a = false -> is_nan b = false -> (a <? b) = false -> (b <=? a) = true.
Proof.
  rewrite !is_nan_false, FloatAxioms.ltb_spec, FloatAxioms.leb_spec. unfold SFltb, SFleb.
  intros Ha Hb. rewrite (SFcompare_antisym (Prim2SF a) (Prim2SF b)).
  destruct (SFcompare (Prim2SF a) (Prim2SF b)) as [[]|] eqn:E; try done.
  apply SFcompare_None in E. by destruct E.
Qed.


Lemma ltb_trans a b c : (a <? b) = true -> (b <? c) = true -> (a <? c) = true.
Proof.
  rewrite !FloatAxioms.ltb_spec. unfold SFltb.
  destruct (SFcompare (Prim2SF a) (Prim2SF b)) as [[]|] eqn:E1; try done.
  destruct (SFcompare (Prim2SF b) (Prim2SF c)) as [[]|] eqn:E2; try done.
  by rewrite (SFcompare_Lt_trans _ _ _ E1 E2).
Qed.

Lemma ltb_leb_trans a b c :
  (a <? b) = true -> (b <=? c) = true -> (a <? c) = true.
Proof.
  rewrite !FloatAxioms.ltb_spec, FloatAxioms.leb_spec. unfold SFltb, SFleb.
  destruct (SFcompare (Prim2SF a) (Prim2SF b)) as [[]|] eqn:E1; try done.
  destruct (SFcompare (Prim2SF b) (Prim2SF c)) as [[]|] eqn:E2; try done.
  - by rewrite (SFcompare_Lt_Eq_trans _ _ _ E1 E2).
  - by rewrite (SFcompare_Lt_trans _ _ _ E1 E2).
Qed.


End Binary64Order.

(** [exec] runs the reads and writes at the head of the goal, with the
    values that the heap is known to hold. *)
Ltac rd_put :=
  first
    [ rewrite rd_put_ne by (left; congruence)
    | erewrite rd_put_eq by (first [vec | lia]) ].
Ltac exec := repeat first [progress cbn [bind] | rd_put | run_rd | run_wr].

(** ** The rebound on binary64

    After the rebound of one axis the coordinate is NaN or inside the
    domain: a number outside is clamped, a NaN fails both comparisons and
    is left where it is. *)

Section Rebound64.
Implicit Types (s : store float) (i n : nat).
Local Open Scope float_scope.

Lemma clamp_inside (width a : float) :
  (0 <=? width) = true ->
  (0 <=? fmax 0 (fmin width a)) = true /\
  (fmax 0 (fmin width a) <=? width) = true.
Proof.
  intros Hw. destruct (leb_not_nan _ _ Hw) as [_ Hn].
  unfold fmax, fmin. cbn [fltb fzero binary64_arith].
  destruct (a <? width) eqn:E1.
  - destruct (0 <? a) eqn:E2.
    + split; by apply ltb_leb.
    + split; [reflexivity|done].
  - destruct (0 <? width) eqn:E2.
    + split; [done|by apply leb_refl].
    + split; [reflexivity|done].
Qed.

Lemma rebound_inside x vx width i n s :
  x <> vx -> vector s x n -> vector s vx n -> (i < n)%nat ->
  (0 <=? width) = true ->
  exists s', rebound x vx width i s = Done s' /\
             modifies [x; vx] i s s' /\ inside s' x i width.
Proof.
  intros Hne Hx Hvx Hi Hw. destruct (leb_not_nan _ _ Hw) as [_ Hn].
  unfold rebound. run_rd. cbn [fltb fzero binary64_arith].
  destruct (_ || _) eqn:Ec.
  - run_rd. run_wr. rewrite rd_put_ne by (left; congruence). run_rd. run_wr.
    eexists; split; [done|]. split; [mods|].
    eexists; split; [by apply (rd_put_eq _ _ _ n); [vec|]|].
    intros _. by apply clamp_inside.
  - apply orb_false_iff in Ec as [E1 E2].
    eexists; split; [done|]. split; [mods|]. exists a. split; [done|].
    intros Ha. split; by apply not_ltb_leb.
Qed.


(** A cell that is not written keeps its value. *)
Lemma inside_modifies vs i s s' v k extent :
  modifies vs i s s' -> v ∉ vs \/ k <> i ->
  inside s v k extent -> inside s' v k extent.
Proof.
  intros [_ Hrd] Hvk (a & Ha & Hin). exists a. by rewrite Hrd.
Qed.
End Rebound64.

Section Domain.
Implicit Types (s : store float) (i n : nat).
Local Open Scope float_scope.




End Domain.

(** ** The returned positions *)

Section Positions.
Import Examples.
Local Open Scope float_scope.




End Positions.

(** ** Rows of the heap *)

Section RowFacts.
Context {F : Type} `{Arith F}.
Implicit Types (s st : store F) (v : loc) (k i n : nat).

(** Writing to a cell the value that it holds changes nothing. *)
Lemma put_same s v k (a : F) :
  rd s v k = Done a -> put s v k a = s.
Proof.
  unfold rd, put. destruct (s !! v) as [l|] eqn:Hl; [|done].
  destruct (l !! k) as [a'|] eqn:Hk; [|done]. intros [= ->].
  rewrite (list_insert_id l k a Hk). by apply list_insert_id.
Qed.

Lemma rd_lookup s s' v k : s' !! v = s !! v -> rd s' v k = rd s v k.
Proof. unfold rd. by intros ->. Qed.

Lemma rd_app s (t : store F) v k n : vector s v n -> rd (s ++ t) v k = rd s v k.
Proof.
  intros (l & Hl & _)%vector_lookup. apply rd_lookup.
  rewrite Hl. by apply lookup_app_l_Some.
Qed.

Lemma modifies_rd vs i s s' v k :
  modifies vs i s s' -> v ∉ vs -> rd s' v k = rd s v k.
Proof. intros [_ Hrd] Hv. apply Hrd. by left. Qed.

(** [a] is none of [b], [c]. *)
Lemma not_in_2 (a b c : loc) : a <> b -> a <> c -> a ∉ [b; c].
Proof.
  intros. rewrite !not_elem_of_cons. split_and!; [done..|apply not_elem_of_nil].
Qed.

Lemma not_in_1 (a b : loc) : a <> b -> a ∉ [b].
Proof.
  intros. rewrite !not_elem_of_cons. split_and!; [done|apply not_elem_of_nil].
Qed.

Lemma agree_put ws i st s v m a :
  agree ws i st s -> vector s v m -> (i < m)%nat ->
  agree ws i (put st v i a) (put s v i a).
Proof.
  intros [Sh Hag] Hv Hi. split; [by rewrite !shape_put|].
  intros v' k Hk. destruct (decide (v = v' /\ i = k)) as [[<- <-]|Hne].
  - rewrite !(rd_put_eq _ _ _ m); try done. unfold vector in *. by rewrite Sh.
  - assert (v <> v' \/ i <> k) as Hvk.
    { destruct (decide (v = v')) as [->|]; [right|by left].
      intros ->. by apply Hne. }
    rewrite !rd_put_ne by done. by apply Hag.
Qed.

End RowFacts.

(** A loop whose iteration [k] writes row [k] of the vectors [ws] only,
    and whose iteration [i] reads nothing of the other rows of [ws],
    leaves in row [i] what iteration [i] alone leaves there. *)
Lemma for_loop_row {F : Type} `{Arith F}
    (body : nat -> store F -> outcome (store F)) (ws : list loc)
    (s si : store F) (n i : nat) :
  (forall k st, (k < n)%nat -> shape st = shape s ->
     exists st', body k st = Done st' /\ modifies ws k st st') ->
  (forall st, agree ws i st s ->
     exists st' s', body i st = Done st' /\ body i s = Done s' /\
                    agree ws i st' s') ->
  (i < n)%nat -> body i s = Done si ->
  exists s', for_loop n body s = Done s' /\ shape s' = shape s /\
             forall v, rd s' v i = rd si v i.
Proof.
  intros Hbody Hagree Hi Hsi.
  destruct (for_loop_invariant
    (fun (k : nat) (st : store F) =>
       shape st = shape s /\
       (forall v, v ∉ ws -> st !! v = s !! v) /\
       (forall v j, (k <= j)%nat -> rd st v j = rd s v j) /\
       ((i < k)%nat -> forall v, rd st v i = rd si v i))
    body s n) as (s' & Hrun & Sh & _ & _ & Hrow).
  { split_and!; try done. lia. }
  { intros k st Hk (Sh & Hst & Hlater & Hrow).
    destruct (Hbody k st Hk Sh) as (st' & Hst' & M).
    exists st'. split; [done|].
    pose proof M as [Sh' Hrd]. split; [congruence|]. split.
    { intros v Hv. rewrite <- Hst by done. by eapply modifies_lookup. }
    split.
    { intros v j Hj. rewrite Hrd by (right; lia). apply Hlater. lia. }
    intros Hik v. destruct (decide (i = k)) as [->|Hne].
    - destruct (Hagree st) as (st2 & s2 & Hst2 & Hs2 & [_ Hag]).
      + split; [done|]. intros w j [->|Hw]; [by apply Hlater|].
        by apply rd_lookup, Hst.
      + rewrite Hst' in Hst2. rewrite Hsi in Hs2.
        injection Hst2 as <-. injection Hs2 as <-. apply Hag. by left.
    - rewrite Hrd by (by right). apply Hrow. lia. }
  exists s'. split; [done|]. split; [done|]. by apply Hrow.
Qed.

(** A loop whose iteration [k] writes row [k] only is a sweep over the
    rows: iteration [i] runs on a heap whose rows before [i] are as the loop
    leaves them and whose rows from [i] on are as the loop found them, and
    row [i] is left as iteration [i] leaves it. *)
Lemma for_loop_sweep {F : Type} `{Arith F}
    (body : nat -> store F -> outcome (store F)) (ws : list loc)
    (s : store F) (n i : nat) :
  (forall k st, (k < n)%nat -> shape st = shape s ->
     exists st', body k st = Done st' /\ modifies ws k st st') ->
  (i < n)%nat ->
  exists s' st si,
    for_loop n body s = Done s' /\
    for_loop i body s = Done st /\ body i st = Done si /\
    shape st = shape s /\
    (forall v j, (i <= j)%nat -> rd st v j = rd s v j) /\
    (forall v j, (j < i)%nat -> rd st v j = rd s' v j) /\
    (forall v, rd s' v i = rd si v i).
Proof.
  intros Hbody Hi.
  destruct (for_loop_invariant
    (fun (k : nat) (cur : store F) =>
       for_loop k body s = Done cur /\
       shape cur = shape s /\
       (forall v j, (k <= j)%nat -> rd cur v j = rd s v j) /\
       ((i < k)%nat ->
        exists st si,
          for_loop i body s = Done st /\ body i st = Done si /\
          shape st = shape s /\
          (forall v j, (i <= j)%nat -> rd st v j = rd s v j) /\
          (forall v j, (j < i)%nat -> rd st v j = rd cur v j) /\
          (forall v, rd cur v i = rd si v i)))
    body s n) as (s' & Hrun & _ & _ & _ & Hsweep).
  { split_and!; try done. lia. }
  { intros k cur Hk (Hcur & Sh & Hlater & Hsweep).
    destruct (Hbody k cur Hk Sh) as (cur' & Hcur' & [Sh' Hrd]).
    exists cur'. split; [done|]. split_and!.
    - cbn [for_loop]. by rewrite Hcur.
    - congruence.
    - intros v j Hj. rewrite Hrd by (right; lia). apply Hlater. lia.
    - intros Hik. destruct (decide (i = k)) as [->|Hne].
      + exists cur, cur'. split_and!; try done.
        intros v j Hj. rewrite Hrd by (right; lia). done.
      + destruct Hsweep as (st & si & Hst & Hsi & Hsh & H1 & H2 & H3); [lia|].
        exists st, si. split_and!; try done.
        * intros v j Hj. rewrite Hrd by (right; lia). by apply H2.
        * intros v. rewrite Hrd by (by right). apply H3. }
  destruct (Hsweep Hi) as (st & si & Hst & Hsi & Hsh & H1 & H2 & H3).
  by exists s', st, si.
Qed.

(** [agree_exec Hag] runs the reads and writes of a block on two heaps that
    agree, side by side, and [agree_done Hag] concludes that the two heaps
    that they leave agree. *)
Ltac agree_rd Hag :=
  match type of Hag with
  | agree _ ?i ?st _ =>
      match goal with
      | |- context [rd st ?v ?k] =>
          rewrite (proj2 Hag v k) by (first [by left | by right])
      end
  end.
Ltac agree_exec Hag :=
  repeat first [progress cbn [bind] | rd_put | agree_rd Hag | run_rd | run_wr].
Ltac agree_done Hag :=
  do 2 eexists; split; [done|]; split; [done|];
  repeat (eapply agree_put; [|vec|lia]); exact Hag.

(** ** The predator update without boids *)

Section NoBoids.
Import Examples.
Local Open Scope float_scope.

(** C7 as it was stated fails.  With no boid, a predator inside the domain
    is not returned as it was: it has moved from 5 to 5 + 1 = 6 and no wall
    is reached; and a predator faster than max_speed * pred_rel_speed is
    returned with another velocity, (3, 4) limited to (0.6, 0.8). *)
Lemma update_predators_cpp_moves_without_boids :
  (exists s',
     PoorAreas.update_predators_cpp (frame_0_3 1) nobody 100 100 10 1
       (lone_predator 1 0) = Done (frame_0_3 1, s')
     /\ s' = heap [6] [5] [1] [0] [] [] [] [] []
     /\ s' <> lone_predator 1 0)
  /\ (exists s',
        PoorAreas.update_predators_cpp (frame_0_3 1) nobody 100 100 1 1
          (lone_predator 3 4) = Done (frame_0_3 1, s')
        /\ s' = heap [0x1.6666666666666p+2] [0x1.7333333333333p+2]
                     [0x1.3333333333333p-1] [0x1.999999999999ap-1]
                     [] [] [] [] []
        /\ s' <> lone_predator 3 4).
Proof.
  split; eexists; (split; [vm_compute; reflexivity|]);
    (split; [reflexivity|]); intros [=].
Qed.
End NoBoids.

(** ** What the blocks leave in the cells that they write *)

Section BlockValues.
Context {F : Type} `{Arith F}.
Implicit Types (s : store F) (i n : nat).
Local Open Scope arith_scope.

Lemma limit_speed_values vx vy (max_speed a b : F) i n s :
  vx <> vy -> vector s vx n -> vector s vy n -> (i < n)%nat ->
  rd s vx i = Done a -> rd s vy i = Done b ->
  let speed := fsqrt (a * a + b * b) in
  exists s',
    limit_speed vx vy max_speed i s = Done s' /\
    modifies [vx; vy] i s s' /\
    rd s' vx i = Done (if speed >? max_speed then a / speed * max_speed
                       else a) /\
    rd s' vy i = Done (if speed >? max_speed then b / speed * max_speed
                       else b).
Proof.
  intros Hne Hvx Hvy Hi Ha Hb speed. unfold limit_speed.
  rewrite Ha, Hb. cbn [bind]. fold speed.
  destruct (max_speed <? speed).
  - exec. eexists; split; [done|]. split; [mods|]. by exec.
  - exists s. split; [done|]. split; [mods|]. done.
Qed.

Lemma advance_values x vx (a v : F) i n s :
  vector s x n -> (i < n)%nat ->
  rd s x i = Done a -> rd s vx i = Done v ->
  exists s', advance x vx i s = Done s' /\ modifies [x] i s s' /\
             rd s' x i = Done (a + v).
Proof.
  intros Hx Hi Ha Hv. unfold advance. exec.
  eexists; split; [done|]. split; [mods|]. by exec.
Qed.

Lemma rebound_values x vx (width a v : F) i n s :
  x <> vx -> vector s x n -> vector s vx n -> (i < n)%nat ->
  rd s x i = Done a -> rd s vx i = Done v ->
  let out := (a <? fzero) || (a >? width) in
  exists s', rebound x vx width i s = Done s' /\
             modifies [x; vx] i s s' /\
             rd s' x i = Done (if out then fmax fzero (fmin width a) else a) /\
             rd s' vx i = Done (if out then - v else v).
Proof.
  intros Hne Hx Hvx Hi Ha Hv out. unfold rebound. rewrite Ha. cbn [bind].
  fold out. destruct out.
  - exec. eexists; split; [done|]. split; [mods|]. by exec.
  - exists s. split; [done|]. split; [mods|]. done.
Qed.
End BlockValues.

Section Coast.
Context {F : Type} `{Arith F}.
Context (px py pvx pvy : loc) (n : nat).
Context (width height max_speed pred_rel_speed : F).
Implicit Types (s : store F) (i : nat).
Local Open Scope arith_scope.

Lemma limit_predator_speed_values i s (vx vy : F) :
  pvx <> pvy -> vector s pvx n -> vector s pvy n -> (i < n)%nat ->
  rd s pvx i = Done vx -> rd s pvy i = Done vy ->
  let speed := fsqrt (vx * vx + vy * vy) in
  let fast := speed >? max_speed * pred_rel_speed in
  exists s',
    PoorAreas.limit_predator_speed pvx pvy max_speed pred_rel_speed i s
      = Done s' /\
    modifies [pvx; pvy] i s s' /\
    rd s' pvx i = Done (if fast then vx / speed * max_speed * pred_rel_speed
                        else vx) /\
    rd s' pvy i = Done (if fast then vy / speed * max_speed * pred_rel_speed
                        else vy).
Proof.
  intros Hne Hvx Hvy Hi Ha Hb speed fast.
  unfold PoorAreas.limit_predator_speed.
  rewrite Ha, Hb. cbn [bind]. fold speed. fold fast. destruct fast.
  - exec. eexists; split; [done|]. split; [mods|]. by exec.
  - exists s. split; [done|]. split; [mods|]. done.
Qed.

(** Steps 5 to 7 of the loop body, on the row (x, y, vx, vy) of predator
    [i]. *)
Lemma coast_values i s (x y vx vy : F) :
  NoDup [px; py; pvx; pvy] ->
  vector s px n -> vector s py n -> vector s pvx n -> vector s pvy n ->
  (i < n)%nat ->
  rd s px i = Done x -> rd s py i = Done y ->
  rd s pvx i = Done vx -> rd s pvy i = Done vy ->
  let speed := fsqrt (vx * vx + vy * vy) in
  let fast := speed >? max_speed * pred_rel_speed in
  let vx1 := if fast then vx / speed * max_speed * pred_rel_speed else vx in
  let vy1 := if fast then vy / speed * max_speed * pred_rel_speed else vy in
  let x1 := x + vx1 in
  let y1 := y + vy1 in
  let out_x := (x1 <? fzero) || (x1 >? width) in
  let out_y := (y1 <? fzero) || (y1 >? height) in
  exists s',
    PoorAreas.coast px py pvx pvy width height max_speed pred_rel_speed i s
      = Done s' /\
    rd s' px i = Done (if out_x then fmax fzero (fmin width x1) else x1) /\
    rd s' py i = Done (if out_y then fmax fzero (fmin height y1) else y1) /\
    rd s' pvx i = Done (if out_x then - vx1 else vx1) /\
    rd s' pvy i = Done (if out_y then - vy1 else vy1).
Proof.
  rewrite !NoDup_cons, !not_elem_of_cons.
  intros ((N1 & N2 & N3 & _) & (N4 & N5 & _) & (N6 & _) & _).
  intros Hpx Hpy Hpvx Hpvy Hi Hx Hy Hvx Hvy speed fast vx1 vy1 x1 y1
    out_x out_y.
  unfold PoorAreas.coast.
  destruct (limit_predator_speed_values i s vx vy)
    as (s1 & -> & M1 & Hvx1 & Hvy1); [done..|].
  fold speed in Hvx1, Hvy1. fold fast in Hvx1, Hvy1.
  fold vx1 in Hvx1. fold vy1 in Hvy1.
  pose proof M1 as [Sh1 _]. cbn [bind].
  assert (Hx1 : rd s1 px i = Done x).
  { rewrite (modifies_rd _ _ _ _ _ _ M1); [done|by apply not_in_2]. }
  assert (Hy1 : rd s1 py i = Done y).
  { rewrite (modifies_rd _ _ _ _ _ _ M1); [done|by apply not_in_2]. }
  destruct (advance_values px pvx x vx1 i n s1)
    as (s2 & -> & M2 & Hx2); [vec|done..|].
  fold x1 in Hx2. pose proof M2 as [Sh2 _]. cbn [bind].
  assert (Hy2 : rd s2 py i = Done y).
  { rewrite (modifies_rd _ _ _ _ _ _ M2); [done|by apply not_in_1]. }
  assert (Hvy2 : rd s2 pvy i = Done vy1).
  { rewrite (modifies_rd _ _ _ _ _ _ M2); [done|by apply not_in_1]. }
  assert (Hvx2 : rd s2 pvx i = Done vx1).
  { rewrite (modifies_rd _ _ _ _ _ _ M2); [done|by apply not_in_1]. }
  destruct (advance_values py pvy y vy1 i n s2)
    as (s3 & -> & M3 & Hy3); [vec|done..|].
  fold y1 in Hy3. pose proof M3 as [Sh3 _]. cbn [bind].
  assert (Hx3 : rd s3 px i = Done x1).
  { rewrite (modifies_rd _ _ _ _ _ _ M3); [done|by apply not_in_1]. }
  assert (Hvx3 : rd s3 pvx i = Done vx1).
  { rewrite (modifies_rd _ _ _ _ _ _ M3); [done|by apply not_in_1]. }
  assert (Hvy3 : rd s3 pvy i = Done vy1).
  { rewrite (modifies_rd _ _ _ _ _ _ M3); [done|by apply not_in_1]. }
  destruct (rebound_values px pvx width x1 vx1 i n s3)
    as (s4 & -> & M4 & Hx4 & Hvx4); [done|vec|vec|done..|].
  fold out_x in Hx4, Hvx4. pose proof M4 as [Sh4 _]. cbn [bind].
  assert (Hy4 : rd s4 py i = Done y1).
  { rewrite (modifies_rd _ _ _ _ _ _ M4); [done|by apply not_in_2]. }
  assert (Hvy4 : rd s4 pvy i = Done vy1).
  { rewrite (modifies_rd _ _ _ _ _ _ M4); [done|by apply not_in_2]. }
  destruct (rebound_values py pvy height y1 vy1 i n s4)
    as (s5 & -> & M5 & Hy5 & Hvy5); [done|vec|vec|done..|].
  fold out_y in Hy5, Hvy5.
  exists s5. split; [done|]. split_and!; try done.
  - rewrite (modifies_rd _ _ _ _ _ _ M5); [done|by apply not_in_2].
  - rewrite (modifies_rd _ _ _ _ _ _ M5); [done|by apply not_in_2].
Qed.
End Coast.

(** C7, as the code has it.  With no boid, the call completes, returns the
    predators' own columns and writes nothing else, and predator i is
    returned unsteered but not unchanged: its velocity (vx, vy) is limited
    to max_speed * pred_rel_speed (rescaled by / speed * max_speed *
    pred_rel_speed when its computed length speed is greater), its
    position is advanced by the limited velocity, and on each axis a
    position outside [0, extent] is clamped to the wall with the velocity
    component negated.  (Any arithmetic.) *)
Theorem predators_coast_without_boids {F : Type} `{Arith F}
    (predators boids : DataFrame)
    (width height max_speed pred_rel_speed : F) (s : store F) (i : nat)
    (x y vx vy : F) :
  nrows boids = 0%nat ->
  well_formed s predators -> distinct_columns predators ->
  (i < nrows predators)%nat ->
  rd s (col_x predators) i = Done x -> rd s (col_y predators) i = Done y ->
  rd s (col_vx predators) i = Done vx -> rd s (col_vy predators) i = Done vy ->
  let speed := fsqrt (vx * vx + vy * vy)%A in
  let fast := (speed >? max_speed * pred_rel_speed)%A in
  let vx1 := if fast then (vx / speed * max_speed * pred_rel_speed)%A else vx in
  let vy1 := if fast then (vy / speed * max_speed * pred_rel_speed)%A else vy in
  let x1 := (x + vx1)%A in
  let y1 := (y + vy1)%A in
  let out_x := ((x1 <? fzero) || (x1 >? width))%A in
  let out_y := ((y1 <? fzero) || (y1 >? height))%A in
  exists s',
    PoorAreas.update_predators_cpp predators boids width height max_speed
      pred_rel_speed s
    = Done ({| nrows := nrows predators;
               col_x := col_x predators; col_y := col_y predators;
               col_vx := col_vx predators; col_vy := col_vy predators |}, s')
    /\ shape s' = shape s
    /\ (forall v,
          v ∉ [col_x predators; col_y predators;
               col_vx predators; col_vy predators] ->
          s' !! v = s !! v)
    /\ rd s' (col_x predators) i
       = Done (if out_x then fmax fzero (fmin width x1) else x1)
    /\ rd s' (col_y predators) i
       = Done (if out_y then fmax fzero (fmin height y1) else y1)
    /\ rd s' (col_vx predators) i = Done (if out_x then (- vx1)%A else vx1)
    /\ rd s' (col_vy predators) i = Done (if out_y then (- vy1)%A else vy1).
Proof.
  intros Hn ((Hpx & Hpy) & Hpvx & Hpvy) Hnd Hi Hx Hy Hvx Hvy
    speed fast vx1 vy1 x1 y1 out_x out_y.
  unfold PoorAreas.update_predators_cpp. rewrite Hn.
  change (PoorAreas.predator_step (col_x predators) (col_y predators)
            (col_vx predators) (col_vy predators) (col_x boids) (col_y boids)
            0 width height max_speed pred_rel_speed)
    with (PoorAreas.coast (col_x predators) (col_y predators)
            (col_vx predators) (col_vy predators) width height max_speed
            pred_rel_speed).
  set (body := PoorAreas.coast (col_x predators) (col_y predators)
                 (col_vx predators) (col_vy predators) width height max_speed
                 pred_rel_speed).
  set (ws := [col_x predators; col_y predators;
              col_vx predators; col_vy predators]).
  assert (Hbody : forall k st, (k < nrows predators)%nat ->
            shape st = shape s ->
            exists st', body k st = Done st' /\ modifies ws k st st').
  { intros k st Hk Sh.
    apply (coast_modifies _ _ _ _ _ _ _ _ k (nrows predators) st);
      unfold vector in *; by rewrite ?Sh. }
  destruct (for_loop_cells body ws (fun _ _ => True) s (nrows predators))
    as (s' & Hrun & Sh & Hkeep & _).
  { intros k st Hk Hsh. destruct (Hbody k st Hk Hsh) as (st' & ? & ?).
    by exists st'. }
  { done. }
  destruct (for_loop_sweep body ws s (nrows predators) i Hbody Hi)
    as (s2 & st & si & Hrun2 & _ & Hsi & Hsh & Hlater & _ & Hrow).
  rewrite Hrun in Hrun2. injection Hrun2 as <-.
  rewrite Hrun. cbn [bind]. exists s'. split; [done|]. split; [done|].
  split; [done|].
  destruct (coast_values (col_x predators) (col_y predators)
              (col_vx predators) (col_vy predators) (nrows predators)
              width height max_speed pred_rel_speed i st x y vx vy)
    as (si' & Hsi' & Kx & Ky & Kvx & Kvy);
    try (unfold vector in *; by rewrite ?Hsh);
    try (by rewrite Hlater); try done.
  fold body in Hsi'. rewrite Hsi in Hsi'. injection Hsi' as <-.
  rewrite !Hrow. done.
Qed.

Section CoastWitness.
Import Examples.
Local Open Scope float_scope.

Lemma lone_predator_well_formed (vx vy : float) :
  well_formed (lone_predator vx vy) (frame_0_3 1) /\
  distinct_columns (frame_0_3 1).
Proof.
  split; [by repeat split|].
  unfold distinct_columns. rewrite !NoDup_cons, !not_elem_of_cons. simpl.
  split_and!; try lia; try apply not_elem_of_nil. apply NoDup_nil_2.
Defined.

Lemma predators_coast_without_boids_witness :
  exists s',
    PoorAreas.update_predators_cpp (frame_0_3 1) nobody 100 100 2 1
      (lone_predator 3 4) = Done (frame_0_3 1, s') /\
    shape s' = shape (lone_predator 3 4) /\
    (forall v, v ∉ [0; 1; 2; 3]%nat -> s' !! v = lone_predator 3 4 !! v) /\
    rd s' 0 0 = Done (5 + 3 / 5 * 2 * 1) /\
    rd s' 1 0 = Done (5 + 4 / 5 * 2 * 1) /\
    rd s' 2 0 = Done (3 / 5 * 2 * 1) /\
    rd s' 3 0 = Done (4 / 5 * 2 * 1).
Proof.
  destruct (lone_predator_well_formed 3 4) as [Hp Hnd].
  exact (predators_coast_without_boids (frame_0_3 1) nobody 100 100 2 1
           (lone_predator 3 4) 0 5 5 3 4 eq_refl Hp Hnd (le_n 1)
           eq_refl eq_refl eq_refl eq_refl).
Defined.
End CoastWitness.

(** ** The corner example of the simple update *)





Section CornerOnTheMachine.
Import Examples.
Local Open Scope float_scope.

(** The corner example of the simple update on the machine, for
    max_speed = 2: position (0, 0), velocity (0.9, 0.9). *)
Lemma corner_boid_on_the_machine :
  Mistral.update_boids (frame_0_3 1) 2 0.5 10 5 100 100
      [[0]; [0]; [-1]; [-1]]
    = Done ({| nrows := 1; col_x := 6; col_y := 7; col_vx := 4; col_vy := 5 |},
            [[0]; [0]; [-1]; [-1]; [0x1.ccccccccccccdp-1];
             [0x1.ccccccccccccdp-1]; [0]; [0]]).
Proof. vm_compute; reflexivity. Qed.
End CornerOnTheMachine.

(** ** The separation test *)

Section Neighbours.
Context {F : Type} `{Arith F}.
Context (x y vx vy : loc) (n : nat).
Implicit Types (s : store F) (i j m : nat).
Local Open Scope arith_scope.





End Neighbours.

(** *** The distance of two boids does not depend on who scans *)

Section Symmetry.
Local Open Scope float_scope.






End Symmetry.


Section Strict.
Import Examples.
Local Open Scope float_scope.




End Strict.

(** ** The parameter max_force of the extended update *)

(** C10.  The result of the extended flock update (the returned frame and the
    heap it leaves) does not depend on max_force: two calls that agree on
    every other input, the draws of rand() included, agree on the result.
    The parameter is declared and never read; every steering vector goes
    through [limit], which compares with max_speed. *)
Theorem update_boids_cpp_ignores_max_force {F : Type} `{Arith F}
    (boids predators areas : DataFrame)
    (width height max_speed max_force max_force' : F)
    (neighbor_radius predator_radius : F) (area_radius : loc)
    (separation_weight alignment_weight cohesion_weight : F)
    (predator_avoid_weight area_avoid_weight : F)
    (rnd : nat -> F) (s : store F) :
  PoorAreas.update_boids_cpp boids predators areas width height max_speed
    max_force neighbor_radius predator_radius area_radius
    separation_weight alignment_weight cohesion_weight
    predator_avoid_weight area_avoid_weight rnd s
  = PoorAreas.update_boids_cpp boids predators areas width height max_speed
      max_force' neighbor_radius predator_radius area_radius
      separation_weight alignment_weight cohesion_weight
      predator_avoid_weight area_avoid_weight rnd s.
Proof. reflexivity. Qed.

(** ** The theorems above on a small world *)

Section SmallWorld.
Import Examples.
Local Open Scope R_scope.

Lemma small_world_well_formed :
  well_formed small_world (frame_0_3 2) /\ distinct_columns (frame_0_3 2) /\
  positions small_world (frame_4_7 1) /\ vector small_world radii 1.
Proof.
  split; [by repeat split|]. split; [|by repeat split].
  unfold distinct_columns. rewrite !NoDup_cons, !not_elem_of_cons. simpl.
  split_and!; try lia; try apply not_elem_of_nil. apply NoDup_nil_2.
Defined.

End SmallWorld.

(** * Further properties of the routines *)

(** ** The predator update *)

Section PredatorFacts.
Context {F : Type} `{Arith F}.
Context (px py pvx pvy bx by_ : loc) (n n_boids : nat).
Context (width height max_speed pred_rel_speed : F).
Implicit Types (s : store F) (i j : nat).
Local Open Scope arith_scope.

(** The search completes, and the index it finds is the index of a boid. *)
Lemma closest_scan_Done s i m nx ny :
  vector s px n -> vector s py n -> vector s bx nx -> vector s by_ ny ->
  (i < n)%nat -> (m <= nx)%nat -> (m <= ny)%nat ->
  exists c, for_loop m (PoorAreas.closest_step px py bx by_ s i) (None, None)
            = Done c /\
            forall j, snd c = Some j -> (j < m)%nat.
Proof.
  intros Hpx Hpy Hbx Hby Hi Hm Hm'.
  apply (for_loop_invariant
    (fun (k : nat) (c : option F * option nat) =>
       forall j, snd c = Some j -> (j < k)%nat)).
  { by intros j [=]. }
  intros k c Hk Hc. unfold PoorAreas.closest_step. repeat run_rd.
  destruct (PoorAreas.closer _ _).
  - eexists; split; [done|]. intros j [= <-]. lia.
  - eexists; split; [done|]. intros j Hj. apply Hc in Hj. lia.
Qed.

Lemma chase_modifies s i c :
  vector s px n -> vector s py n -> vector s pvx n -> vector s pvy n ->
  vector s bx n_boids -> vector s by_ n_boids -> (i < n)%nat ->
  (forall j, c = Some j -> (j < n_boids)%nat) ->
  exists s', PoorAreas.chase px py pvx pvy bx by_ c i s = Done s' /\
             modifies [pvx; pvy] i s s'.
Proof.
  intros Hpx Hpy Hpvx Hpvy Hbx Hby Hi Hc. unfold PoorAreas.chase.
  destruct c as [j|]; [|eexists; split; [done|mods]].
  specialize (Hc j eq_refl). repeat run_rd. destruct (_ <? _).
  - run_wr. run_rd. run_wr. eexists; split; [done|mods].
  - eexists; split; [done|mods].
Qed.

Lemma limit_predator_speed_modifies s i :
  vector s pvx n -> vector s pvy n -> (i < n)%nat ->
  exists s', PoorAreas.limit_predator_speed pvx pvy max_speed pred_rel_speed
               i s = Done s' /\
             modifies [pvx; pvy] i s s'.
Proof.
  intros Hpvx Hpvy Hi. unfold PoorAreas.limit_predator_speed. do 2 run_rd.
  destruct (_ <? _).
  - run_wr. run_rd. run_wr. eexists; split; [done|mods].
  - eexists; split; [done|mods].
Qed.

Lemma predator_step_modifies s i :
  vector s px n -> vector s py n -> vector s pvx n -> vector s pvy n ->
  vector s bx n_boids -> vector s by_ n_boids -> (i < n)%nat ->
  exists s', PoorAreas.predator_step px py pvx pvy bx by_ n_boids width height
               max_speed pred_rel_speed i s = Done s' /\
             modifies [px; py; pvx; pvy] i s s'.
Proof.
  intros Hpx Hpy Hpvx Hpvy Hbx Hby Hi. unfold PoorAreas.predator_step.
  destruct (closest_scan_Done s i n_boids n_boids n_boids)
    as (c & -> & Hc); [done..|].
  cbn [bind].
  run (chase_modifies s i (snd c)) as s1 M1.
  run (coast_modifies px py pvx pvy width height max_speed pred_rel_speed
         i n s1) as s2 M2.
  eexists; split; [done|mods].
Qed.
End PredatorFacts.

(** X1.  The predator update completes on well-formed inputs and writes
    the predators' columns only.  For predators whose four columns have
    nrows cells and boids whose two position columns have nrows cells,
    whatever the number of boids, update_predators_cpp returns the frame of
    the predators' own columns with the same number of rows, the heap keeps
    its shape, and every vector other than the four predator columns is
    left as it was.  (Any arithmetic.) *)
Theorem update_predators_cpp_writes_predators_only {F : Type} `{Arith F}
    (predators boids : DataFrame)
    (width height max_speed pred_rel_speed : F) (s : store F) :
  well_formed s predators -> positions s boids ->
  exists s',
    PoorAreas.update_predators_cpp predators boids width height max_speed
      pred_rel_speed s
    = Done ({| nrows := nrows predators;
               col_x := col_x predators; col_y := col_y predators;
               col_vx := col_vx predators; col_vy := col_vy predators |}, s') /\
    shape s' = shape s /\
    forall v,
      v ∉ [col_x predators; col_y predators;
           col_vx predators; col_vy predators] ->
      s' !! v = s !! v.
Proof.
  intros ((Hpx & Hpy) & Hpvx & Hpvy) [Hbx Hby].
  unfold PoorAreas.update_predators_cpp.
  edestruct (for_loop_cells
    (PoorAreas.predator_step (col_x predators) (col_y predators)
       (col_vx predators) (col_vy predators) (col_x boids) (col_y boids)
       (nrows boids) width height max_speed pred_rel_speed)
    [col_x predators; col_y predators; col_vx predators; col_vy predators]
    (fun _ _ => True)) as (s' & -> & Sh & Hkeep & _); [| |by exists s'].
  - intros k st Hk Sh.
    edestruct (predator_step_modifies (col_x predators) (col_y predators)
                 (col_vx predators) (col_vy predators) (col_x boids)
                 (col_y boids) (nrows predators) (nrows boids) width height
                 max_speed pred_rel_speed st k)
      as (st' & -> & M); [unfold vector in *; by rewrite Sh..|done|].
    by exists st'.
  - done.
Qed.

(** ** The predators stay in the domain *)

Section PredatorDomain.
Implicit Types (s : store float) (i n : nat).
Local Open Scope float_scope.

Lemma predator_step_inside px py pvx pvy bx by_ n_boids width height
    max_speed pred_rel_speed n s i :
  vector s px n -> vector s py n -> vector s pvx n -> vector s pvy n ->
  vector s bx n_boids -> vector s by_ n_boids ->
  NoDup [px; py; pvx; pvy] -> (i < n)%nat -> (0 <=? width) = true -> (0 <=? height) = true ->
  exists s', PoorAreas.predator_step px py pvx pvy bx by_ n_boids width height
               max_speed pred_rel_speed i s = Done s' /\
             modifies [px; py; pvx; pvy] i s s' /\
             inside s' px i width /\ inside s' py i height.
Proof.
  intros Hpx Hpy Hpvx Hpvy Hbx Hby Hnd Hi Hw Hh.
  revert Hnd. rewrite !NoDup_cons, !not_elem_of_cons.
  intros ((N1 & N2 & N3 & _) & (N4 & N5 & _) & (N6 & _) & _).
  unfold PoorAreas.predator_step.
  destruct (closest_scan_Done px py bx by_ n s i n_boids n_boids n_boids)
    as (c & -> & Hc); [done..|].
  cbn [bind].
  run (chase_modifies px py pvx pvy bx by_ n n_boids s i (snd c)) as s1 M1.
  unfold PoorAreas.coast.
  destruct (limit_predator_speed_modifies pvx pvy n max_speed
              pred_rel_speed s1 i) as (s2 & -> & M2); [vec|vec|done|].
  pose proof M2 as [Sh2 _]. cbn [bind].
  run (advance_modifies px pvx i n s2) as s3 M3.
  run (advance_modifies py pvy i n s3) as s4 M4.
  destruct (rebound_inside px pvx width i n s4)
    as (s5 & -> & M5 & W5); [done|vec|vec|done..|].
  pose proof M5 as [Sh5 _]. cbn [bind].
  destruct (rebound_inside py pvy height i n s5)
    as (s6 & -> & M6 & W6); [done|vec|vec|done..|].
  eexists; split; [done|]. split; [mods|]. split; [|done].
  eapply inside_modifies; [exact M6| |exact W5].
  left. rewrite !not_elem_of_cons. split_and!; [done..|apply not_elem_of_nil].
Qed.
End PredatorDomain.

(** X2.  After update_predators_cpp every predator coordinate is NaN or
    inside the domain, walls included, for well-formed predators with four
    distinct columns and 0 <= width, 0 <= height.  (binary64.) *)
Theorem predators_stay_in_the_domain (predators boids : DataFrame)
    (width height max_speed pred_rel_speed : float) (s : store float) :
  well_formed s predators -> distinct_columns predators ->
  positions s boids ->
  (0 <=? width)%float = true -> (0 <=? height)%float = true ->
  exists out s',
    PoorAreas.update_predators_cpp predators boids width height max_speed
      pred_rel_speed s = Done (out, s') /\
    nrows out = nrows predators /\
    forall i, (i < nrows out)%nat ->
      inside s' (col_x out) i width /\ inside s' (col_y out) i height.
Proof.
  intros ((Hpx & Hpy) & Hpvx & Hpvy) Hnd [Hbx Hby] Hw Hh.
  unfold PoorAreas.update_predators_cpp.
  edestruct (for_loop_cells
    (PoorAreas.predator_step (col_x predators) (col_y predators)
       (col_vx predators) (col_vy predators) (col_x boids) (col_y boids)
       (nrows boids) width height max_speed pred_rel_speed)
    [col_x predators; col_y predators; col_vx predators; col_vy predators]
    (fun st i => inside st (col_x predators) i width /\
                 inside st (col_y predators) i height))
    as (s' & -> & _ & _ & Hin).
  { intros k st Hk Sh. eapply predator_step_inside; try done;
      unfold vector in *; rewrite Sh; eassumption. }
  { intros k j st st' M Hne [Wx Wy].
    split; (eapply inside_modifies; [exact M|by right|done]). }
  cbn [bind]. do 2 eexists. split; [done|]. split; [done|]. exact Hin.
Qed.

Section PredatorsInsideWitness.
Import Examples.
Lemma predators_stay_in_the_domain_witness :
  exists out s',
    PoorAreas.update_predators_cpp (frame_4_7 1) (frame_0_3 1)
      100%float 100%float 2%float 1%float boid_on_predator = Done (out, s') /\
    nrows out = 1%nat /\
    forall i, (i < nrows out)%nat ->
      inside s' (col_x out) i 100%float /\ inside s' (col_y out) i 100%float.
Proof.
  apply (predators_stay_in_the_domain (frame_4_7 1) (frame_0_3 1)
           100%float 100%float 2%float 1%float boid_on_predator);
    try (by repeat split); try reflexivity.
  unfold distinct_columns. rewrite !NoDup_cons, !not_elem_of_cons. simpl.
  split_and!; try lia; try apply not_elem_of_nil. apply NoDup_nil_2.
Defined.
End PredatorsInsideWitness.

(** ** Find Closest Boid *)

Section Chase.
Context (px py bx by_ : loc) (n n_boids : nat).
Implicit Types (s : store float) (i j k : nat).
Local Open Scope float_scope.

Lemma not_ltb_trans (a b c : float) :
  (a <? c) = false -> (b <? c) = true -> (a <? b) = false.
Proof.
  intros Hac Hbc. destruct (a <? b) eqn:E; [|done].
  by rewrite (ltb_trans _ _ _ E Hbc) in Hac.
Qed.

(** X4.  Find Closest Boid.  The search of predator i over the boids ends
    with no boid exactly when no computed distance passes d < INFINITY (a
    distance that is infinite or NaN is never chosen); otherwise it ends
    with the index j of a boid and its computed distance d, d < INFINITY,
    no boid has a computed distance below d, and every boid before j has a
    distance above d or NaN: among equidistant boids the first is chosen.
    (binary64.) *)
Theorem closest_boid_is_the_first_nearest s i :
  vector s px n -> vector s py n -> vector s bx n_boids ->
  vector s by_ n_boids -> (i < n)%nat ->
  exists c,
    for_loop n_boids (PoorAreas.closest_step px py bx by_ s i) (None, None)
      = Done c /\
    match c with
    | (None, None) =>
        forall k dk, (k < n_boids)%nat ->
          boid_distance px py bx by_ s i k = Done dk ->
          (dk <? infinity) = false
    | (Some d, Some j) =>
        (j < n_boids)%nat /\
        boid_distance px py bx by_ s i j = Done d /\
        (d <? infinity) = true /\
        (forall k dk, (k < n_boids)%nat ->
           boid_distance px py bx by_ s i k = Done dk -> (dk <? d) = false) /\
        (forall k dk, (k < j)%nat ->
           boid_distance px py bx by_ s i k = Done dk ->
           (d <? dk) = true \/ is_nan dk = true)
    | _ => False
    end.
Proof.
  intros Hpx Hpy Hbx Hby Hi.
  apply (for_loop_invariant
    (fun (m : nat) (c : option float * option nat) =>
       match c with
       | (None, None) =>
           forall k dk, (k < m)%nat ->
             boid_distance px py bx by_ s i k = Done dk ->
             (dk <? infinity) = false
       | (Some d, Some j) =>
           (j < m)%nat /\
           boid_distance px py bx by_ s i j = Done d /\
           (d <? infinity) = true /\
           (forall k dk, (k < m)%nat ->
              boid_distance px py bx by_ s i k = Done dk ->
              (dk <? d) = false) /\
           (forall k dk, (k < j)%nat ->
              boid_distance px py bx by_ s i k = Done dk ->
              (d <? dk) = true \/ is_nan dk = true)
       | _ => False
       end)).
  { intros k dk Hk. lia. }
  intros m c Hm Hc. unfold PoorAreas.closest_step. repeat run_rd.
  cbn [fsub fadd fmul fsqrt binary64_arith].
  set (dm := PrimFloat.sqrt ((a - a0) * (a - a0) + (a1 - a2) * (a1 - a2))).
  assert (Hdm : boid_distance px py bx by_ s i m = Done dm).
  { unfold boid_distance. by rewrite E, E0, E1, E2. }
  destruct c as [[d|] [j|]]; try done.
  - destruct Hc as (Hj & Hd & Hfin & Hle & Hlt).
    cbn [PoorAreas.closer fst fltb binary64_arith].
    destruct (dm <? d) eqn:Ec.
    + eexists; split; [done|]. split; [lia|]. split; [done|].
      split; [by eapply ltb_trans|]. split.
      * intros k dk Hk Hdk. destruct (decide (k = m)) as [->|Hne].
        -- rewrite Hdm in Hdk. injection Hdk as <-. apply ltb_irrefl.
        -- eapply not_ltb_trans; [|exact Ec]. apply (Hle k); [lia|done].
      * intros k dk Hk Hdk. destruct (is_nan dk) eqn:En; [by right|left].
        eapply ltb_leb_trans; [exact Ec|]. apply not_ltb_leb; try done.
        -- by destruct (ltb_not_nan _ _ Hfin).
        -- apply (Hle k); [lia|done].
    + eexists; split; [done|]. split; [lia|]. split; [done|].
      split; [done|]. split; [|done].
      intros k dk Hk Hdk. destruct (decide (k = m)) as [->|Hne].
      * rewrite Hdm in Hdk. by injection Hdk as <-.
      * apply (Hle k); [lia|done].
  - cbn [PoorAreas.closer fst lt_INFINITY binary64_arith].
    destruct (dm <? infinity) eqn:Ec.
    + eexists; split; [done|]. split; [lia|]. split; [done|].
      split; [done|]. split.
      * intros k dk Hk Hdk. destruct (decide (k = m)) as [->|Hne].
        -- rewrite Hdm in Hdk. injection Hdk as <-. apply ltb_irrefl.
        -- eapply not_ltb_trans; [|exact Ec]. apply (Hc k); [lia|done].
      * intros k dk Hk Hdk. destruct (is_nan dk) eqn:En; [by right|left].
        eapply ltb_leb_trans; [exact Ec|]. apply not_ltb_leb; try done.
        by apply (Hc k).
    + eexists; split; [done|].
      intros k dk Hk Hdk. destruct (decide (k = m)) as [->|Hne].
      * rewrite Hdm in Hdk. by injection Hdk as <-.
      * apply (Hc k); [lia|done].
Qed.
End Chase.

Section ClosestWitness.
Import Examples.
Local Open Scope float_scope.

Lemma closest_boid_is_the_first_nearest_witness :
  exists d j,
    for_loop 2 (PoorAreas.closest_step 4 5 0 1 small_flock 0) (None, None)
      = Done (Some d, Some j) /\
    (j < 2)%nat /\ boid_distance 4 5 0 1 small_flock 0 j = Done d.
Proof.
  destruct (closest_boid_is_the_first_nearest 4 5 0 1 1 2 small_flock 0)
    as (c & Hc & Hspec); try reflexivity; [lia|].
  vm_compute in Hc. injection Hc as <-.
  destruct Hspec as (Hj & Hd & _).
  by eexists _, _.
Defined.
End ClosestWitness.

Section PredatorsApart.
Context {F : Type} `{Arith F}.
Context (px py pvx pvy bx by_ : loc) (n n_boids : nat).
Context (width height max_speed pred_rel_speed : F).
Implicit Types (s st : store F) (v : loc) (k i : nat).
Local Open Scope arith_scope.

(** The search of predator [i] reads the boids and row [i]. *)
Lemma closest_scan_agree ws i st s m c :
  agree ws i st s -> bx ∉ ws -> by_ ∉ ws ->
  for_loop m (PoorAreas.closest_step px py bx by_ st i) c
  = for_loop m (PoorAreas.closest_step px py bx by_ s i) c.
Proof.
  intros [_ Hag] Hbx Hby. induction m as [|m IH]; [done|].
  cbn [for_loop]. rewrite IH. clear IH.
  destruct (for_loop m _ c) as [c'|]; cbn [bind]; [|done].
  unfold PoorAreas.closest_step.
  rewrite (Hag bx m) by (by right). rewrite (Hag px i) by (by left).
  rewrite (Hag by_ m) by (by right). by rewrite (Hag py i) by (by left).
Qed.

Context (ws := [px; py; pvx; pvy]).

Lemma chase_agree i st s c :
  vector s px n -> vector s py n -> vector s pvx n -> vector s pvy n ->
  vector s bx n_boids -> vector s by_ n_boids ->
  bx ∉ ws -> by_ ∉ ws -> pvx <> pvy -> (i < n)%nat ->
  (forall j, c = Some j -> (j < n_boids)%nat) ->
  agree ws i st s ->
  exists st' s',
    PoorAreas.chase px py pvx pvy bx by_ c i st = Done st' /\
    PoorAreas.chase px py pvx pvy bx by_ c i s = Done s' /\
    agree ws i st' s'.
Proof.
  intros Hpx Hpy Hpvx Hpvy Hbx Hby Nbx Nby Hne Hi Hc Hag.
  pose proof Hag as [Sh _].
  unfold PoorAreas.chase. destruct c as [j|]; [|by exists st, s].
  specialize (Hc j eq_refl).
  do 4 (agree_rd Hag; run_rd). destruct (_ <? _).
  - agree_exec Hag. agree_done Hag.
  - by exists st, s.
Qed.

Lemma limit_predator_speed_agree i st s :
  vector s pvx n -> vector s pvy n -> pvx <> pvy -> (i < n)%nat ->
  agree ws i st s ->
  exists st' s',
    PoorAreas.limit_predator_speed pvx pvy max_speed pred_rel_speed i st
      = Done st' /\
    PoorAreas.limit_predator_speed pvx pvy max_speed pred_rel_speed i s
      = Done s' /\
    agree ws i st' s'.
Proof.
  intros Hpvx Hpvy Hne Hi Hag. pose proof Hag as [Sh _].
  unfold PoorAreas.limit_predator_speed.
  do 2 (agree_rd Hag; run_rd). destruct (_ <? _).
  - agree_exec Hag. agree_done Hag.
  - by exists st, s.
Qed.

Lemma advance_agree x vx i st s :
  vector s x n -> vector s vx n -> (i < n)%nat ->
  agree ws i st s ->
  exists st' s',
    advance x vx i st = Done st' /\ advance x vx i s = Done s' /\
    agree ws i st' s'.
Proof.
  intros Hx Hvx Hi Hag. pose proof Hag as [Sh _]. unfold advance.
  agree_exec Hag. agree_done Hag.
Qed.

Lemma rebound_agree x vx (extent : F) i st s :
  vector s x n -> vector s vx n -> x <> vx -> (i < n)%nat ->
  agree ws i st s ->
  exists st' s',
    rebound x vx extent i st = Done st' /\ rebound x vx extent i s = Done s' /\
    agree ws i st' s'.
Proof.
  intros Hx Hvx Hne Hi Hag. pose proof Hag as [Sh _]. unfold rebound.
  agree_rd Hag. run_rd. destruct (_ || _).
  - agree_exec Hag. agree_done Hag.
  - by exists st, s.
Qed.

(** The step of predator [i] on two heaps that agree on the boids and on
    row [i] leaves two heaps that agree in the same way: it reads nothing
    of the other predators. *)
Lemma predator_step_agree i st s :
  vector s px n -> vector s py n -> vector s pvx n -> vector s pvy n ->
  vector s bx n_boids -> vector s by_ n_boids ->
  NoDup ws -> bx ∉ ws -> by_ ∉ ws -> (i < n)%nat ->
  agree ws i st s ->
  exists st' s',
    PoorAreas.predator_step px py pvx pvy bx by_ n_boids width height
      max_speed pred_rel_speed i st = Done st' /\
    PoorAreas.predator_step px py pvx pvy bx by_ n_boids width height
      max_speed pred_rel_speed i s = Done s' /\
    agree ws i st' s'.
Proof.
  intros Hpx Hpy Hpvx Hpvy Hbx Hby Hnd Nbx Nby Hi Hag.
  revert Hnd. unfold ws at 1. rewrite !NoDup_cons, !not_elem_of_cons.
  intros ((N1 & N2 & N3 & _) & (N4 & N5 & _) & (N6 & _) & _).
  unfold PoorAreas.predator_step.
  rewrite (closest_scan_agree ws i st s) by done.
  destruct (closest_scan_Done px py bx by_ n s i n_boids n_boids n_boids)
    as (c & -> & Hc); [done..|].
  cbn [bind].
  destruct (chase_agree i st s (snd c)) as (st1 & s1 & -> & Hs1 & A1);
    [done..|].
  rewrite Hs1. cbn [bind].
  destruct (chase_modifies px py pvx pvy bx by_ n n_boids s i (snd c))
    as (s1' & Hs1' & [Sh1 _]); [done..|].
  rewrite Hs1 in Hs1'. injection Hs1' as <-.
  unfold PoorAreas.coast.
  destruct (limit_predator_speed_agree i st1 s1)
    as (st2 & s2 & -> & Hs2 & A2); [vec|vec|done..|].
  rewrite Hs2. cbn [bind].
  destruct (limit_predator_speed_modifies pvx pvy n max_speed pred_rel_speed
              s1 i) as (s2' & Hs2' & [Sh2 _]); [vec|vec|done|].
  rewrite Hs2 in Hs2'. injection Hs2' as <-.
  destruct (advance_agree px pvx i st2 s2) as (st3 & s3 & -> & Hs3 & A3);
    [vec|vec|done..|].
  rewrite Hs3. cbn [bind].
  destruct (advance_modifies px pvx i n s2) as (s3' & Hs3' & [Sh3 _]);
    [vec|vec|done|].
  rewrite Hs3 in Hs3'. injection Hs3' as <-.
  destruct (advance_agree py pvy i st3 s3) as (st4 & s4 & -> & Hs4 & A4);
    [vec|vec|done..|].
  rewrite Hs4. cbn [bind].
  destruct (advance_modifies py pvy i n s3) as (s4' & Hs4' & [Sh4 _]);
    [vec|vec|done|].
  rewrite Hs4 in Hs4'. injection Hs4' as <-.
  destruct (rebound_agree px pvx width i st4 s4)
    as (st5 & s5 & -> & Hs5 & A5); [vec|vec|done..|].
  rewrite Hs5. cbn [bind].
  destruct (rebound_modifies px pvx width i n s4) as (s5' & Hs5' & [Sh5 _]);
    [vec|vec|done|].
  rewrite Hs5 in Hs5'. injection Hs5' as <-.
  destruct (rebound_agree py pvy height i st5 s5)
    as (st6 & s6 & -> & Hs6 & A6); [vec|vec|done..|].
  rewrite Hs6. by exists st6, s6.
Qed.
End PredatorsApart.

(** X6.  The predators do not interact.  The predator update writes into
    the columns it reads, and yet row i of every vector of the heap it
    leaves is what the loop body of predator i alone leaves when it is run
    on the heap of the start of the tick: the body of predator i reads the
    boids and row i only.  This needs the boids' position columns not to
    be columns of the predators.  (Any arithmetic.) *)
Theorem predators_do_not_interact {F : Type} `{Arith F}
    (predators boids : DataFrame)
    (width height max_speed pred_rel_speed : F) (s : store F) (i : nat) :
  well_formed s predators -> distinct_columns predators ->
  positions s boids ->
  col_x boids ∉ [col_x predators; col_y predators;
                 col_vx predators; col_vy predators] ->
  col_y boids ∉ [col_x predators; col_y predators;
                 col_vx predators; col_vy predators] ->
  (i < nrows predators)%nat ->
  exists out s' si,
    PoorAreas.update_predators_cpp predators boids width height max_speed
      pred_rel_speed s = Done (out, s') /\
    PoorAreas.predator_step (col_x predators) (col_y predators)
      (col_vx predators) (col_vy predators) (col_x boids) (col_y boids)
      (nrows boids) width height max_speed pred_rel_speed i s = Done si /\
    forall v, rd s' v i = rd si v i.
Proof.
  intros ((Hpx & Hpy) & Hpvx & Hpvy) Hnd [Hbx Hby] Nbx Nby Hi.
  set (step := PoorAreas.predator_step (col_x predators) (col_y predators)
                 (col_vx predators) (col_vy predators) (col_x boids)
                 (col_y boids) (nrows boids) width height max_speed
                 pred_rel_speed).
  destruct (predator_step_modifies (col_x predators) (col_y predators)
              (col_vx predators) (col_vy predators) (col_x boids)
              (col_y boids) (nrows predators) (nrows boids) width height
              max_speed pred_rel_speed s i) as (si & Hsi & _); [done..|].
  fold step in Hsi. unfold PoorAreas.update_predators_cpp. fold step.
  destruct (for_loop_row step
              [col_x predators; col_y predators;
               col_vx predators; col_vy predators]
              s si (nrows predators) i) as (s' & -> & _ & Hrow); try done.
  { intros k st Hk Sh.
    apply (predator_step_modifies _ _ _ _ _ _ (nrows predators) (nrows boids));
      try done; unfold vector in *; by rewrite Sh. }
  { intros st Hag.
    by apply (predator_step_agree _ _ _ _ _ _ (nrows predators)
                (nrows boids)). }
  cbn [bind]. by do 3 eexists.
Qed.

(** X7.  The predator update validates no length.  Let the x column of the
    boids have m cells, fewer than the boids frame has rows (and the y
    column at least m).  Without predators the update returns normally,
    with the heap as it was; with at least one predator the search of the
    first predator reads the m boids that are there and then indexes the x
    column at m, outside its bounds.  (Any arithmetic.) *)
Theorem update_predators_cpp_checks_no_length {F : Type} `{Arith F}
    (predators boids : DataFrame)
    (width height max_speed pred_rel_speed : F) (s : store F) (m my : nat) :
  positions s predators ->
  vector s (col_x boids) m -> vector s (col_y boids) my ->
  (m <= my)%nat -> (m < nrows boids)%nat ->
  (nrows predators = 0%nat ->
   PoorAreas.update_predators_cpp predators boids width height max_speed
     pred_rel_speed s
   = Done ({| nrows := 0;
              col_x := col_x predators; col_y := col_y predators;
              col_vx := col_vx predators; col_vy := col_vy predators |}, s))
  /\
  ((0 < nrows predators)%nat ->
   PoorAreas.update_predators_cpp predators boids width height max_speed
     pred_rel_speed s = OutOfBounds (col_x boids) m).
Proof.
  intros [Hpx Hpy] Hbx Hby Hmy Hm. unfold PoorAreas.update_predators_cpp.
  split.
  - intros ->. reflexivity.
  - intros Hn.
    rewrite (for_loop_stops _ s s 0 (nrows predators) (col_x boids) m);
      [done|done| |done].
    unfold PoorAreas.predator_step.
    destruct (closest_scan_Done (col_x predators) (col_y predators)
                (col_x boids) (col_y boids) (nrows predators) s 0 m m my)
      as (c & Hc & _); [done..|lia|lia|lia|].
    rewrite (for_loop_stops _ (None, None) c m (nrows boids) (col_x boids) m);
      [done|done| |done].
    unfold PoorAreas.closest_step.
    by rewrite (rd_OutOfBounds s (col_x boids) m m).
Qed.

(** ** The walls *)

Section Reflection.
Implicit Types (s : store R) (i n : nat).
Local Open Scope R_scope.

Lemma rebound_cases x vx width i n s (a v : R) :
  x <> vx -> vector s x n -> vector s vx n -> (i < n)%nat -> 0 <= width ->
  rd s x i = Done a -> rd s vx i = Done v ->
  exists s' a' v',
    rebound x vx width i s = Done s' /\
    rd s' x i = Done a' /\ rd s' vx i = Done v' /\
    (0 <= a <= width -> s' = s) /\
    (a < 0 -> a' = 0 /\ v' = - v) /\
    (width < a -> a' = width /\ v' = - v) /\
    0 <= a' <= width.
Proof.
  intros Hne Hx Hvx Hi Hw Ha Hv. unfold rebound. rewrite Ha.
  cbn [bind fltb fzero fneg real_arith].
  destruct (Rltb a 0) eqn:E1; [|destruct (Rltb width a) eqn:E2];
    cbn [orb].
  - apply Rltb_true in E1. rewrite Hv. exec.
    do 3 eexists. split; [done|]. exec. split; [done|]. split; [done|].
    unfold fmax, fmin. cbn [fltb fzero real_arith].
    rewrite (proj2 (Rltb_true a width)) by lra.
    case_Rltb; repeat (split || intro); lra.
  - apply Rltb_false in E1. apply Rltb_true in E2. rewrite Hv. exec.
    do 3 eexists. split; [done|]. exec. split; [done|]. split; [done|].
    unfold fmax, fmin. cbn [fltb fzero real_arith].
    rewrite (proj2 (Rltb_false a width)) by lra.
    case_Rltb; repeat (split || intro); lra.
  - apply Rltb_false in E1, E2. exists s, a, v.
    split; [done|]. split; [done|]. split; [done|]. split; [done|].
    split; [lra|]. split; lra.
Qed.

(** X8.  Rebound Off Walls of the extended flock update and of the predator
    update, on one axis of extent width >= 0.  A position inside
    [0, width], the two walls included, leaves the heap as it was; a
    position below 0 becomes 0 and a position above width becomes width,
    and in both cases the velocity component is negated, keeping its
    magnitude; and running the block again on the result changes nothing.
    (Real arithmetic.) *)
Theorem rebound_reflects_at_the_walls x vx width i n s (a v : R) :
  x <> vx -> vector s x n -> vector s vx n -> (i < n)%nat -> 0 <= width ->
  rd s x i = Done a -> rd s vx i = Done v ->
  exists s' a' v',
    rebound x vx width i s = Done s' /\
    rd s' x i = Done a' /\ rd s' vx i = Done v' /\
    (0 <= a <= width -> s' = s) /\
    (a < 0 -> a' = 0 /\ v' = - v) /\
    (width < a -> a' = width /\ v' = - v) /\
    rebound x vx width i s' = Done s'.
Proof.
  intros Hne Hx Hvx Hi Hw Ha Hv.
  destruct (rebound_cases x vx width i n s a v)
    as (s' & a' & v' & Hrun & Ha' & Hv' & Hin & Hlo & Hhi & Hwithin);
    [done..|].
  exists s', a', v'. split_and!; try done.
  destruct (rebound_modifies x vx width i n s) as (s1 & Hrun1 & [Sh _]);
    [done..|].
  rewrite Hrun in Hrun1. injection Hrun1 as <-.
  destruct (rebound_cases x vx width i n s' a' v')
    as (s2 & _ & _ & -> & _ & _ & Hin' & _); [done|vec|vec|done..|].
  by rewrite Hin'.
Qed.

Lemma border_rebound_cases new_x new_vx width i n s (a v : R) :
  new_x <> new_vx -> vector s new_x n -> vector s new_vx n -> (i < n)%nat ->
  0 <= width ->
  rd s new_x i = Done a -> rd s new_vx i = Done v ->
  exists s' a' v',
    Mistral.border_rebound new_x new_vx width i s = Done s' /\
    rd s' new_x i = Done a' /\ rd s' new_vx i = Done v' /\
    (0 <= a <= width -> s' = s) /\
    (a < 0 -> a' = 0 /\ v' = - v * (9 / 10)) /\
    (width < a -> a' = width /\ v' = - v * (9 / 10)) /\
    0 <= a' <= width.
Proof.
  intros Hne Hx Hvx Hi Hw Ha Hv. unfold Mistral.border_rebound. rewrite Ha.
  cbn [bind fltb fzero fneg fmul lit_0_9 real_arith].
  destruct (Rltb a 0) eqn:E1.
  - apply Rltb_true in E1. exec.
    rewrite (proj2 (Rltb_false width 0)) by lra.
    do 3 eexists. split; [done|]. exec. split; [done|]. split; [done|].
    split; [lra|]. split; [done|]. split; lra.
  - apply Rltb_false in E1. cbn [bind]. rewrite Ha. cbn [bind].
    destruct (Rltb width a) eqn:E2.
    + apply Rltb_true in E2. exec.
      do 3 eexists. split; [done|]. exec. split; [done|]. split; [done|].
      split; [lra|]. split; [lra|]. split; [done|lra].
    + apply Rltb_false in E2. exists s, a, v.
      split; [done|]. split; [done|]. split; [done|]. split; [done|].
      split; [lra|]. split; lra.
Qed.

(** X9.  Border Rebound of the simple update, on one axis of extent
    width >= 0.  A position inside [0, width], the two walls included,
    leaves the heap as it was; a position below 0 becomes 0 and a position
    above width becomes width, and in both cases the velocity component is
    negated and multiplied by 0.9; and running the block again on the
    result changes nothing.  (Real arithmetic.) *)
Theorem border_rebound_reflects_and_damps new_x new_vx width i n s (a v : R) :
  new_x <> new_vx -> vector s new_x n -> vector s new_vx n -> (i < n)%nat ->
  0 <= width ->
  rd s new_x i = Done a -> rd s new_vx i = Done v ->
  exists s' a' v',
    Mistral.border_rebound new_x new_vx width i s = Done s' /\
    rd s' new_x i = Done a' /\ rd s' new_vx i = Done v' /\
    (0 <= a <= width -> s' = s) /\
    (a < 0 -> a' = 0 /\ v' = - v * (9 / 10)) /\
    (width < a -> a' = width /\ v' = - v * (9 / 10)) /\
    Mistral.border_rebound new_x new_vx width i s' = Done s'.
Proof.
  intros Hne Hx Hvx Hi Hw Ha Hv.
  destruct (border_rebound_cases new_x new_vx width i n s a v)
    as (s' & a' & v' & Hrun & Ha' & Hv' & Hin & Hlo & Hhi & Hwithin);
    [done..|].
  exists s', a', v'. split_and!; try done.
  destruct (border_rebound_modifies new_x new_vx width i n s)
    as (s1 & Hrun1 & [Sh _]); [done..|].
  rewrite Hrun in Hrun1. injection Hrun1 as <-.
  destruct (border_rebound_cases new_x new_vx width i n s' a' v')
    as (s2 & _ & _ & -> & _ & _ & Hin' & _); [done|vec|vec|done..|].
  by rewrite Hin'.
Qed.
End Reflection.

(** ** The counters of the scans *)

Section ScanCounts.
Context {F : Type} `{Arith F}.
Context (x y vx vy : loc) (n : nat).
Implicit Types (s : store F) (i j m : nat).
Local Open Scope arith_scope.

Lemma neighbor_scan_counts (neighbor_radius : F) s i :
  flock_vectors x y vx vy n s -> (i < n)%nat ->
  exists a,
    for_loop n (PoorAreas.neighbor_step x y vx vy neighbor_radius s i)
      PoorAreas.scan0 = Done a /\
    PoorAreas.ali_total a = PoorAreas.sep_total a /\
    PoorAreas.coh_total a = PoorAreas.sep_total a /\
    (PoorAreas.sep_total a < n)%nat /\
    (PoorAreas.sep_total a = 0%nat -> a = PoorAreas.scan0).
Proof.
  intros (Hx & Hy & Hvx & Hvy) Hi.
  destruct (for_loop_invariant
    (fun (k : nat) (a : PoorAreas.scan) =>
       PoorAreas.ali_total a = PoorAreas.sep_total a /\
       PoorAreas.coh_total a = PoorAreas.sep_total a /\
       (PoorAreas.sep_total a + (if decide (i < k)%nat then 1 else 0)
        <= k)%nat /\
       (PoorAreas.sep_total a = 0%nat -> a = PoorAreas.scan0))
    (PoorAreas.neighbor_step x y vx vy neighbor_radius s i)
    PoorAreas.scan0 n) as (a & Hrun & Ha1 & Ha2 & Ha3 & Ha4).
  { split_and!; done. }
  { intros k a Hk (Ha1 & Ha2 & Ha3 & Ha4). unfold PoorAreas.neighbor_step.
    destruct (decide (i = k)) as [->|Hne].
    - exists a. split_and!; try done.
      rewrite decide_False in Ha3 by lia. rewrite decide_True by lia. lia.
    - repeat run_rd.
      assert (Hk' : ((if decide (i < S k)%nat then 1 else 0)
                     = if decide (i < k)%nat then 1 else 0)%nat).
      { destruct (decide (i < k)%nat).
        - by rewrite decide_True by lia.
        - by rewrite decide_False by lia. }
      destruct (_ <? _).
      + eexists; split; [done|]. cbn. rewrite Hk'. split_and!; try lia.
      + exists a. rewrite Hk'. split_and!; try done. lia. }
  exists a. split_and!; try done. rewrite decide_True in Ha3 by done. lia.
Qed.

Lemma scan_counts (vision_radius separation_radius : F) s i :
  vector s x n -> vector s y n -> vector s vx n -> vector s vy n ->
  (i < n)%nat ->
  exists a,
    for_loop n (Mistral.scan_step x y vx vy vision_radius separation_radius
                  s i) Mistral.scan0 = Done a /\
    Mistral.coh_count a = Mistral.ali_count a /\
    (Mistral.sep_count a < n)%nat /\ (Mistral.ali_count a < n)%nat /\
    (Mistral.sep_count a = 0%nat ->
       Mistral.sep_x a = fzero /\ Mistral.sep_y a = fzero) /\
    (Mistral.ali_count a = 0%nat ->
       Mistral.ali_x a = fzero /\ Mistral.ali_y a = fzero /\
       Mistral.coh_x a = fzero /\ Mistral.coh_y a = fzero).
Proof.
  intros Hx Hy Hvx Hvy Hi.
  destruct (for_loop_invariant
    (fun (k : nat) (a : Mistral.scan) =>
       Mistral.coh_count a = Mistral.ali_count a /\
       (Mistral.sep_count a + (if decide (i < k)%nat then 1 else 0)
        <= k)%nat /\
       (Mistral.ali_count a + (if decide (i < k)%nat then 1 else 0)
        <= k)%nat /\
       (Mistral.sep_count a = 0%nat ->
          Mistral.sep_x a = fzero /\ Mistral.sep_y a = fzero) /\
       (Mistral.ali_count a = 0%nat ->
          Mistral.ali_x a = fzero /\ Mistral.ali_y a = fzero /\
          Mistral.coh_x a = fzero /\ Mistral.coh_y a = fzero))
    (Mistral.scan_step x y vx vy vision_radius separation_radius s i)
    Mistral.scan0 n) as (a & Hrun & Ha1 & Ha2 & Ha3 & Ha4 & Ha5).
  { split_and!; done. }
  { intros k a Hk (Ha1 & Ha2 & Ha3 & Ha4 & Ha5). unfold Mistral.scan_step.
    destruct (decide (i = k)) as [->|Hne].
    - exists a. split_and!; try done.
      + rewrite decide_False in Ha2 by lia. rewrite decide_True by lia. lia.
      + rewrite decide_False in Ha3 by lia. rewrite decide_True by lia. lia.
    - repeat run_rd.
      assert (Hk' : ((if decide (i < S k)%nat then 1 else 0)
                     = if decide (i < k)%nat then 1 else 0)%nat).
      { destruct (decide (i < k)%nat).
        - by rewrite decide_True by lia.
        - by rewrite decide_False by lia. }
      rewrite Hk'.
      destruct (_ <? separation_radius), (_ <? vision_radius);
        (eexists; split; [done|]); cbn; split_and!; try done; try lia. }
  exists a. rewrite decide_True in Ha2, Ha3 by done.
  split_and!; try done; lia.
Qed.
End ScanCounts.

(** X14.  The extended update is a sequential sweep over the boids.  On
    well-formed inputs, boid i is updated by the loop body run on the heap
    that the first i iterations leave, in which the boids before i have
    the values that the update returns for them and the boids from i on
    the values of the start of the tick; and row i of the result is what
    that run leaves in row i.  (Any arithmetic.) *)
Theorem update_boids_cpp_is_a_sequential_sweep {F : Type} `{Arith F}
    (boids predators areas : DataFrame)
    (width height max_speed max_force neighbor_radius predator_radius : F)
    (area_radius : loc)
    (separation_weight alignment_weight cohesion_weight : F)
    (predator_avoid_weight area_avoid_weight : F)
    (rnd : nat -> F) (s : store F) (r i : nat) :
  well_formed s boids -> positions s predators -> positions s areas ->
  vector s area_radius r -> (nrows areas <= r)%nat ->
  (i < nrows boids)%nat ->
  let step :=
    PoorAreas.boid_step (col_x boids) (col_y boids) (col_vx boids)
      (col_vy boids) (col_x predators) (col_y predators) (col_x areas)
      (col_y areas) max_speed neighbor_radius predator_radius area_radius
      (nrows boids) (nrows predators) (nrows areas) width height
      separation_weight alignment_weight cohesion_weight
      predator_avoid_weight area_avoid_weight rnd in
  exists out s' st si,
    PoorAreas.update_boids_cpp boids predators areas width height max_speed
      max_force neighbor_radius predator_radius area_radius
      separation_weight alignment_weight cohesion_weight
      predator_avoid_weight area_avoid_weight rnd s = Done (out, s') /\
    for_loop i step s = Done st /\ step i st = Done si /\
    shape st = shape s /\
    (forall v j, (i <= j)%nat -> rd st v j = rd s v j) /\
    (forall v j, (j < i)%nat -> rd st v j = rd s' v j) /\
    (forall v, rd s' v i = rd si v i).
Proof.
  intros ((Hx & Hy) & Hvx & Hvy) [Hpx Hpy] [Hax Hay] Hr Hle Hi step.
  unfold PoorAreas.update_boids_cpp. fold step.
  destruct (for_loop_sweep step
              [col_x boids; col_y boids; col_vx boids; col_vy boids]
              s (nrows boids) i)
    as (s' & st & si & -> & Hst & Hsi & Hsh & H1 & H2 & H3); [|done|].
  { intros k cur Hk Sh.
    eapply poor_areas_boid_step_modifies; [| |exact Hle|exact Hk].
    - unfold scanned_vectors, flock_vectors, vector in *. rewrite Sh.
      split_and!; eassumption.
    - unfold vector in *. rewrite Sh. exact Hr. }
  cbn [bind]. by do 4 eexists.
Qed.

(** ** The simple update *)

Section Isolated.
Context (x y vx vy : loc) (max_speed max_force : R).
Context (vision_radius separation_radius : R).
Context (new_vx new_vy new_x new_y : loc) (n : nat) (width height : R).
Implicit Types (s : store R) (i j : nat).
Local Open Scope R_scope.


End Isolated.


Section MistralAgree.
Context {F : Type} `{Arith F}.
Context (x y vx vy : loc) (max_speed max_force : F).
Context (vision_radius separation_radius : F).
Context (new_vx new_vy new_x new_y : loc) (n : nat) (width height : F).
Context (ws := [new_vx; new_vy; new_x; new_y]).
Implicit Types (s st : store F) (i j : nat).
Local Open Scope arith_scope.

Lemma new_velocity_agree i st s :
  mistral_vectors x y vx vy new_vx new_vy new_x new_y n s ->
  x ∉ ws -> y ∉ ws -> vx ∉ ws -> vy ∉ ws -> (i < n)%nat ->
  agree ws i st s ->
  exists st' s',
    Mistral.new_velocity x y vx vy max_speed max_force vision_radius
      separation_radius new_vx new_vy n i st = Done st' /\
    Mistral.new_velocity x y vx vy max_speed max_force vision_radius
      separation_radius new_vx new_vy n i s = Done s' /\
    agree ws i st' s'.
Proof.
  intros Hs Nx Ny Nvx Nvy Hi Hag. pose proof Hag as [Sh Hrd].
  pose proof Hs as (Hx & Hy & Hvx & Hvy & Hnvx & Hnvy & Hnx & Hny).
  unfold Mistral.new_velocity.
  assert (Hscan : forall m a,
    for_loop m (Mistral.scan_step x y vx vy vision_radius separation_radius
                  st i) a
    = for_loop m (Mistral.scan_step x y vx vy vision_radius separation_radius
                    s i) a).
  { intros m a. induction m as [|m IH]; [done|].
    cbn [for_loop]. rewrite IH. clear IH.
    destruct (for_loop m _ a) as [a'|]; cbn [bind]; [|done].
    unfold Mistral.scan_step. by rewrite !Hrd by (by right). }
  assert (Hsteer : forall u,
    Mistral.steer vx vy max_speed max_force st i u
    = Mistral.steer vx vy max_speed max_force s i u).
  { intros u. unfold Mistral.steer. by rewrite !Hrd by (by right). }
  assert (Hsep : forall a,
    Mistral.separation vx vy max_speed max_force st i a
    = Mistral.separation vx vy max_speed max_force s i a).
  { intros a. unfold Mistral.separation. by rewrite Hsteer. }
  assert (Hali : forall a,
    Mistral.alignment vx vy max_speed max_force st i a
    = Mistral.alignment vx vy max_speed max_force s i a).
  { intros a. unfold Mistral.alignment. by rewrite Hsteer. }
  assert (Hcoh : forall a,
    Mistral.cohesion x y vx vy max_speed max_force st i a
    = Mistral.cohesion x y vx vy max_speed max_force s i a).
  { intros a. unfold Mistral.cohesion.
    rewrite (Hrd x), (Hrd y) by (by right).
    destruct (_ <? _)%nat; [|done].
    destruct (rd s x i); cbn [bind]; [|done].
    destruct (rd s y i); cbn [bind]; [|done]. by rewrite Hsteer. }
  destruct (new_velocity_modifies x y vx vy max_speed max_force vision_radius
              separation_radius new_vx new_vy new_x new_y n s i Hs Hi)
    as (s1 & Hrun & _).
  unfold Mistral.new_velocity in Hrun. rewrite Hscan.
  destruct (for_loop n _ Mistral.scan0) as [c|]; [|done]. cbn [bind] in *.
  rewrite Hsep.
  destruct (Mistral.separation _ _ _ _ s i c) as [[sx sy]|]; [|done].
  cbn [bind] in *. rewrite Hali.
  destruct (Mistral.alignment _ _ _ _ s i c) as [[lx ly]|]; [|done].
  cbn [bind] in *. rewrite Hcoh.
  destruct (Mistral.cohesion _ _ _ _ _ _ s i c) as [[cx cy]|]; [|done].
  cbn [bind] in *. clear Hrun.
  revert Nvy. unfold ws at 1. rewrite !not_elem_of_cons. intros (Nvy1 & _).
  agree_exec Hag. agree_done Hag.
Qed.

Lemma limit_speed_agree a b (m : F) i st s :
  vector s a n -> vector s b n -> a <> b -> (i < n)%nat ->
  agree ws i st s ->
  exists st' s',
    limit_speed a b m i st = Done st' /\ limit_speed a b m i s = Done s' /\
    agree ws i st' s'.
Proof.
  intros Ha Hb Hne Hi Hag. pose proof Hag as [Sh _]. unfold limit_speed.
  do 2 (agree_rd Hag; run_rd). destruct (_ <? _).
  - agree_exec Hag. agree_done Hag.
  - by exists st, s.
Qed.

Lemma new_position_agree i st s :
  mistral_vectors x y vx vy new_vx new_vy new_x new_y n s ->
  NoDup ws -> x ∉ ws -> y ∉ ws -> (i < n)%nat ->
  agree ws i st s ->
  exists st' s',
    Mistral.new_position x y new_vx new_vy new_x new_y i st = Done st' /\
    Mistral.new_position x y new_vx new_vy new_x new_y i s = Done s' /\
    agree ws i st' s'.
Proof.
  intros Hs Hnd Nx Ny Hi Hag. pose proof Hag as [Sh _].
  pose proof Hs as (Hx & Hy & Hvx & Hvy & Hnvx & Hnvy & Hnx & Hny).
  revert Ny. unfold ws at 1. rewrite !not_elem_of_cons.
  intros (_ & _ & Ny1 & _).
  revert Hnd. unfold ws at 1. rewrite !NoDup_cons, !not_elem_of_cons.
  intros ((N1 & N2 & N3 & _) & (N4 & N5 & _) & (N6 & _) & _).
  unfold Mistral.new_position. agree_exec Hag. agree_done Hag.
Qed.

Lemma border_rebound_agree a b (extent : F) i st s :
  vector s a n -> vector s b n -> a <> b -> (i < n)%nat ->
  agree ws i st s ->
  exists st' s',
    Mistral.border_rebound a b extent i st = Done st' /\
    Mistral.border_rebound a b extent i s = Done s' /\
    agree ws i st' s'.
Proof.
  intros Ha Hb Hne Hi Hag. pose proof Hag as [Sh _].
  unfold Mistral.border_rebound.
  agree_rd Hag. run_rd. destruct (_ <? _).
  - agree_exec Hag. destruct (_ <? _).
    + agree_exec Hag. agree_done Hag.
    + agree_done Hag.
  - agree_exec Hag. destruct (_ <? _).
    + agree_exec Hag. agree_done Hag.
    + by exists st, s.
Qed.

Lemma mistral_boid_step_agree i st s :
  mistral_vectors x y vx vy new_vx new_vy new_x new_y n s ->
  NoDup ws -> x ∉ ws -> y ∉ ws -> vx ∉ ws -> vy ∉ ws -> (i < n)%nat ->
  agree ws i st s ->
  exists st' s',
    Mistral.boid_step x y vx vy max_speed max_force vision_radius
      separation_radius new_vx new_vy new_x new_y n width height i st
    = Done st' /\
    Mistral.boid_step x y vx vy max_speed max_force vision_radius
      separation_radius new_vx new_vy new_x new_y n width height i s
    = Done s' /\
    agree ws i st' s'.
Proof.
  intros Hs Hnd Nx Ny Nvx Nvy Hi Hag.
  pose proof Hnd as Hnd'. revert Hnd'. unfold ws at 1.
  rewrite !NoDup_cons, !not_elem_of_cons.
  intros ((N1 & N2 & N3 & _) & (N4 & N5 & _) & (N6 & _) & _).
  unfold Mistral.boid_step.
  destruct (new_velocity_agree i st s) as (st1 & s1 & -> & Hs1 & A1);
    [done..|].
  rewrite Hs1. cbn [bind].
  destruct (new_velocity_modifies x y vx vy max_speed max_force vision_radius
              separation_radius new_vx new_vy new_x new_y n s i Hs Hi)
    as (s1' & Hs1' & [Sh1 _]).
  rewrite Hs1 in Hs1'. injection Hs1' as <-.
  destruct (limit_speed_agree new_vx new_vy max_speed i st1 s1)
    as (st2 & s2 & -> & Hs2 & A2); [vec|vec|done..|].
  rewrite Hs2. cbn [bind].
  destruct (limit_speed_modifies new_vx new_vy max_speed i n s1)
    as (s2' & Hs2' & [Sh2 _]); [vec|vec|done|].
  rewrite Hs2 in Hs2'. injection Hs2' as <-.
  assert (Hs2v : mistral_vectors x y vx vy new_vx new_vy new_x new_y n s2)
    by vec.
  destruct (new_position_agree i st2 s2) as (st3 & s3 & -> & Hs3 & A3);
    [done..|].
  rewrite Hs3. cbn [bind].
  destruct (new_position_modifies x y vx vy new_vx new_vy new_x new_y n s2 i
              Hs2v Hi) as (s3' & Hs3' & [Sh3 _]).
  rewrite Hs3 in Hs3'. injection Hs3' as <-.
  destruct (border_rebound_agree new_x new_vx width i st3 s3)
    as (st4 & s4 & -> & Hs4 & A4); [vec|vec|done..|].
  rewrite Hs4. cbn [bind].
  destruct (border_rebound_modifies new_x new_vx width i n s3)
    as (s4' & Hs4' & [Sh4 _]); [vec|vec|done|].
  rewrite Hs4 in Hs4'. injection Hs4' as <-.
  destruct (border_rebound_agree new_y new_vy height i st4 s4)
    as (st5 & s5 & -> & Hs5 & A5); [vec|vec|done..|].
  rewrite Hs5. by exists st5, s5.
Qed.
End MistralAgree.

(** X18.  The rows of the result of the simple update are independent of
    one another.  Row i of every vector of the heap that update_boids
    leaves is what the loop body of boid i alone leaves when it is run on
    the heap as the four allocations leave it: no boid is updated from
    values that the update of another boid has written.  (Any
    arithmetic.) *)
Theorem update_boids_rows_are_independent {F : Type} `{Arith F}
    (boids : DataFrame)
    (max_speed max_force vision_radius separation_radius width height : F)
    (s : store F) (i : nat) :
  well_formed s boids -> (i < nrows boids)%nat ->
  let zeros := replicate (nrows boids) fzero in
  exists out s' si,
    Mistral.update_boids boids max_speed max_force vision_radius
      separation_radius width height s = Done (out, s') /\
    Mistral.boid_step (col_x boids) (col_y boids) (col_vx boids)
      (col_vy boids) max_speed max_force vision_radius separation_radius
      (col_vx out) (col_vy out) (col_x out) (col_y out) (nrows boids)
      width height i (s ++ [zeros; zeros; zeros; zeros]) = Done si /\
    forall v, rd s' v i = rd si v i.
Proof.
  intros Hb Hi zeros.
  destruct (mistral_allocation boids s Hb) as (Hs0 & Hv0 & Hnd).
  destruct Hb as ((Hx & Hy) & Hvx & Hvy).
  unfold Mistral.update_boids, alloc. rewrite !length_app. cbn [length].
  cbv zeta in Hs0, Hv0. fold zeros in Hs0, Hv0. fold zeros. rewrite Hs0.
  set (s4 := s ++ [zeros; zeros; zeros; zeros]) in *.
  set (ws := [length s; length s + 1; length s + 1 + 1;
              length s + 1 + 1 + 1]%nat) in *.
  set (step := Mistral.boid_step (col_x boids) (col_y boids) (col_vx boids)
                 (col_vy boids) max_speed max_force vision_radius
                 separation_radius (length s) (length s + 1)
                 (length s + 1 + 1) (length s + 1 + 1 + 1) (nrows boids)
                 width height).
  assert (Hold : forall v m, vector s v m -> v ∉ ws).
  { intros v m (l & Hl & _)%vector_lookup. apply lookup_lt_Some in Hl.
    unfold ws. rewrite !not_elem_of_cons. split_and!; try lia.
    apply not_elem_of_nil. }
  destruct (mistral_boid_step_modifies (col_x boids) (col_y boids)
              (col_vx boids) (col_vy boids) max_speed max_force
              vision_radius separation_radius (length s) (length s + 1)
              (length s + 1 + 1) (length s + 1 + 1 + 1) (nrows boids)
              width height s4 i Hv0 Hi) as (si & Hsi & _).
  fold step in Hsi.
  destruct (for_loop_row step ws s4 si (nrows boids) i)
    as (s' & -> & _ & Hrow); try done.
  { intros k st Hk Sh. apply mistral_boid_step_modifies; [|done].
    unfold mistral_vectors, vector in *. by rewrite Sh. }
  { intros st Hag. apply mistral_boid_step_agree; try done; by eapply Hold. }
  cbn [bind]. by do 3 eexists.
Qed.

(** X19.  The simple update returns a fresh flock.  On a well-formed flock
    it completes; the heap has exactly four vectors more and its earlier
    vectors are as they were; the frame returned has the rows of the input
    and four distinct columns, all of them new vectors with nrows cells.
    The frame returned is therefore a well-formed input, and the update of
    the next tick, run on it, completes as well.  (Any arithmetic.) *)
Theorem update_boids_returns_a_fresh_flock {F : Type} `{Arith F}
    (boids : DataFrame)
    (max_speed max_force vision_radius separation_radius width height : F)
    (s : store F) :
  well_formed s boids ->
  exists out s',
    Mistral.update_boids boids max_speed max_force vision_radius
      separation_radius width height s = Done (out, s') /\
    nrows out = nrows boids /\
    length s' = (length s + 4)%nat /\
    well_formed s' out /\ distinct_columns out /\
    (forall v, v ∈ [col_x out; col_y out; col_vx out; col_vy out] ->
               (length s <= v)%nat) /\
    (forall v, (v < length s)%nat -> s' !! v = s !! v) /\
    exists out2 s2,
      Mistral.update_boids out max_speed max_force vision_radius
        separation_radius width height s' = Done (out2, s2).
Proof.
  intros Hb.
  destruct (mistral_allocation boids s Hb) as (Hs0 & Hv0 & Hnd).
  unfold Mistral.update_boids at 1. unfold alloc.
  rewrite !length_app. cbn [length].
  cbv zeta in Hs0, Hv0. rewrite Hs0.
  destruct (mistral_loop_frame (col_x boids) (col_y boids) (col_vx boids)
              (col_vy boids) max_speed max_force vision_radius
              separation_radius (length s) (length s + 1) (length s + 1 + 1)
              (length s + 1 + 1 + 1) (nrows boids) width height
              (s ++ [replicate (nrows boids) fzero; replicate (nrows boids) fzero;
                     replicate (nrows boids) fzero; replicate (nrows boids) fzero])
              (nrows boids) Hv0 (le_n _)) as (s' & -> & Sh & Hkeep).
  cbn [bind]. do 2 eexists. split; [done|]. cbn [nrows col_x col_y col_vx col_vy].
  assert (Hout : well_formed s'
            {| nrows := nrows boids; col_x := length s + 1 + 1;
               col_y := length s + 1 + 1 + 1; col_vx := length s;
               col_vy := length s + 1 |}).
  { destruct Hv0 as (_ & _ & _ & _ & Hnvx & Hnvy & Hnx & Hny).
    unfold well_formed, positions, vector in *. cbn. rewrite Sh. done. }
  split; [done|]. split.
  { rewrite <- (length_fmap length s'). fold (shape s'). rewrite Sh.
    unfold shape. rewrite length_fmap, length_app. done. }
  split; [done|]. split.
  { unfold distinct_columns. cbn. revert Hnd.
    rewrite !NoDup_cons, !not_elem_of_cons. intros. split_and!; try lia;
      try apply not_elem_of_nil. apply NoDup_nil_2. }
  split.
  { intros v. rewrite !elem_of_cons. intros [->|[->|[->|[->|Hv]]]]; try lia.
    by apply not_elem_of_nil in Hv. }
  split.
  { intros v Hv.
    rewrite Hkeep by (rewrite !not_elem_of_cons; split_and!; try lia;
                      apply not_elem_of_nil).
    by apply lookup_app_l. }
  destruct (update_boids_keeps_its_input _ max_speed max_force vision_radius
              separation_radius width height s' Hout) as (out2 & s2 & Hrun & _).
  by exists out2, s2.
Qed.

(** ** Not-a-number in binary64 *)

Section NaN.
Implicit Types (s : store float) (i n : nat) (a : float).
Local Open Scope float_scope.

Lemma Prim2SF_nan : Prim2SF nan = S754_nan.
Proof. vm_compute; reflexivity. Qed.

(** No comparison with NaN holds. *)
Lemma ltb_nan_l a : (nan <? a) = false.
Proof. by rewrite ltb_spec, Prim2SF_nan. Qed.

Lemma ltb_nan_r a : (a <? nan) = false.
Proof.
  rewrite ltb_spec, Prim2SF_nan. unfold SFltb.
  by destruct (Prim2SF a) as [| | |[] ? ?].
Qed.

(** NaN plus anything is NaN. *)
Lemma add_nan_l a : nan + a = nan.
Proof.
  apply Prim2SF_inj. rewrite add_spec, Prim2SF_nan. reflexivity.
Qed.

(** Rebound Off Walls leaves a NaN position, and the velocity, alone. *)
Lemma rebound_keeps_nan x vx (width : float) i s :
  rd s x i = Done nan -> rebound x vx width i s = Done s.
Proof.
  intros Hx. unfold rebound. rewrite Hx. cbn [bind fltb fzero binary64_arith].
  by rewrite ltb_nan_l, ltb_nan_r.
Qed.

Lemma border_rebound_keeps_nan new_x new_vx (width : float) i s :
  rd s new_x i = Done nan ->
  Mistral.border_rebound new_x new_vx width i s = Done s.
Proof.
  intros Hx. unfold Mistral.border_rebound. rewrite Hx.
  cbn [bind fltb fzero binary64_arith]. rewrite ltb_nan_l. cbn [bind].
  rewrite Hx. cbn [bind]. by rewrite ltb_nan_r.
Qed.

(** Update Position leaves a NaN position NaN. *)
Lemma advance_nan x vx i n s :
  vector s x n -> vector s vx n -> (i < n)%nat ->
  exists s', advance x vx i s = Done s' /\ modifies [x] i s s' /\
             (rd s x i = Done nan -> rd s' x i = Done nan).
Proof.
  intros Hx Hvx Hi. unfold advance. do 2 run_rd. run_wr.
  eexists. split; [done|]. split; [mods|]. intros [= ->].
  cbn [fadd binary64_arith]. rewrite add_nan_l. by apply (rd_put_eq _ _ _ n).
Qed.

Lemma rebound_nan x vx (width : float) i n s :
  vector s x n -> vector s vx n -> (i < n)%nat ->
  exists s', rebound x vx width i s = Done s' /\ modifies [x; vx] i s s' /\
             (rd s x i = Done nan -> rd s' x i = Done nan).
Proof.
  intros Hx Hvx Hi.
  destruct (rebound_modifies x vx width i n s) as (s' & E & M); [done..|].
  exists s'. split; [done|]. split; [done|]. intros Hnan.
  rewrite (rebound_keeps_nan x vx width i s Hnan) in E. by injection E as <-.
Qed.

Lemma border_rebound_nan new_x new_vx (width : float) i n s :
  vector s new_x n -> vector s new_vx n -> (i < n)%nat ->
  exists s', Mistral.border_rebound new_x new_vx width i s = Done s' /\
             modifies [new_x; new_vx] i s s' /\
             (rd s new_x i = Done nan -> rd s' new_x i = Done nan).
Proof.
  intros Hx Hvx Hi.
  destruct (border_rebound_modifies new_x new_vx width i n s)
    as (s' & E & M); [done..|].
  exists s'. split; [done|]. split; [done|]. intros Hnan.
  rewrite (border_rebound_keeps_nan new_x new_vx width i s Hnan) in E.
  by injection E as <-.
Qed.

(** What follows the velocity update in the extended and the predator
    update: Update Position and Rebound Off Walls, on both axes. *)
Lemma move_keeps_nan x y vx vy (width height : float) i n s :
  vector s x n -> vector s y n -> vector s vx n -> vector s vy n ->
  NoDup [x; y; vx; vy] -> (i < n)%nat ->
  exists s',
    (let* s := advance x vx i s in
     let* s := advance y vy i s in
     let* s := rebound x vx width i s in
     rebound y vy height i s) = Done s' /\
    modifies [x; y; vx; vy] i s s' /\
    (rd s x i = Done nan -> rd s' x i = Done nan) /\
    (rd s y i = Done nan -> rd s' y i = Done nan).
Proof.
  intros Hx Hy Hvx Hvy Hnd Hi.
  revert Hnd. rewrite !NoDup_cons, !not_elem_of_cons.
  intros ((N1 & N2 & N3 & _) & (N4 & N5 & _) & (N6 & _) & _).
  destruct (advance_nan x vx i n s) as (s1 & -> & M1 & K1); [done..|].
  pose proof M1 as [Sh1 _]. cbn [bind].
  destruct (advance_nan y vy i n s1) as (s2 & -> & M2 & K2); [vec|vec|done|].
  pose proof M2 as [Sh2 _]. cbn [bind].
  destruct (rebound_nan x vx width i n s2) as (s3 & -> & M3 & K3);
    [vec|vec|done|].
  pose proof M3 as [Sh3 _]. cbn [bind].
  destruct (rebound_nan y vy height i n s3) as (s4 & -> & M4 & K4);
    [vec|vec|done|].
  eexists. split; [done|]. split; [mods|]. split.
  - intros Hnan. rewrite (modifies_rd _ _ _ _ _ _ M4) by (by apply not_in_2).
    apply K3. rewrite (modifies_rd _ _ _ _ _ _ M2) by (by apply not_in_1).
    by apply K1.
  - intros Hnan. apply K4.
    rewrite (modifies_rd _ _ _ _ _ _ M3) by (by apply not_in_2).
    apply K2. by rewrite (modifies_rd _ _ _ _ _ _ M1) by (by apply not_in_1).
Qed.

Lemma poor_areas_boid_step_nan x y vx vy px py ax ay (max_speed : float)
    neighbor_radius predator_radius area_radius n_boids n_predators n_areas
    width height separation_weight alignment_weight cohesion_weight
    predator_avoid_weight area_avoid_weight rnd s i r :
  scanned_vectors x y vx vy px py ax ay n_boids n_predators n_areas s ->
  vector s area_radius r -> (n_areas <= r)%nat ->
  NoDup [x; y; vx; vy] -> (i < n_boids)%nat ->
  exists s', PoorAreas.boid_step x y vx vy px py ax ay max_speed
               neighbor_radius predator_radius area_radius n_boids
               n_predators n_areas width height
               separation_weight alignment_weight cohesion_weight
               predator_avoid_weight area_avoid_weight rnd i s = Done s' /\
             (rd s x i = Done nan -> rd s' x i = Done nan) /\
             (rd s y i = Done nan -> rd s' y i = Done nan).
Proof.
  intros Hs Hr Hle Hnd Hi. unfold PoorAreas.boid_step.
  run (accelerate_modifies x y vx vy px py ax ay max_speed
         neighbor_radius predator_radius area_radius n_boids n_predators
         n_areas separation_weight alignment_weight cohesion_weight
         predator_avoid_weight area_avoid_weight s i r) as s1 M1.
  run (limit_speed_modifies vx vy max_speed i n_boids s1) as s2 M2.
  run (perturb_modifies rnd vx (2 * i)%nat i n_boids s2) as s3 M3.
  run (perturb_modifies rnd vy (2 * i + 1)%nat i n_boids s3) as s4 M4.
  destruct (move_keeps_nan x y vx vy width height i n_boids s4)
    as (s5 & -> & _ & Kx & Ky); [vec|vec|vec|vec|done|done|].
  assert (M : modifies [vx; vy] i s s4) by mods.
  revert Hnd. rewrite !NoDup_cons, !not_elem_of_cons.
  intros ((N1 & N2 & N3 & _) & (N4 & N5 & _) & (N6 & _) & _).
  eexists. split; [done|]. split; intros Hnan; [apply Kx|apply Ky];
    by rewrite (modifies_rd _ _ _ _ _ _ M) by (by apply not_in_2).
Qed.

Lemma predator_step_nan px py pvx pvy bx by_ n_boids
    (width height max_speed pred_rel_speed : float) n s i :
  vector s px n -> vector s py n -> vector s pvx n -> vector s pvy n ->
  vector s bx n_boids -> vector s by_ n_boids ->
  NoDup [px; py; pvx; pvy] -> (i < n)%nat ->
  exists s', PoorAreas.predator_step px py pvx pvy bx by_ n_boids width height
               max_speed pred_rel_speed i s = Done s' /\
             (rd s px i = Done nan -> rd s' px i = Done nan) /\
             (rd s py i = Done nan -> rd s' py i = Done nan).
Proof.
  intros Hpx Hpy Hpvx Hpvy Hbx Hby Hnd Hi.
  unfold PoorAreas.predator_step.
  destruct (closest_scan_Done px py bx by_ n s i n_boids n_boids n_boids)
    as (c & -> & Hc); [done..|].
  cbn [bind].
  run (chase_modifies px py pvx pvy bx by_ n n_boids s i (snd c)) as s1 M1.
  unfold PoorAreas.coast.
  destruct (limit_predator_speed_modifies pvx pvy n max_speed pred_rel_speed
              s1 i) as (s2 & -> & M2); [vec|vec|done|].
  pose proof M2 as [Sh2 _]. cbn [bind].
  destruct (move_keeps_nan px py pvx pvy width height i n s2)
    as (s3 & -> & _ & Kx & Ky); [vec|vec|vec|vec|done|done|].
  assert (M : modifies [pvx; pvy] i s s2) by mods.
  revert Hnd. rewrite !NoDup_cons, !not_elem_of_cons.
  intros ((N1 & N2 & N3 & _) & (N4 & N5 & _) & (N6 & _) & _).
  eexists. split; [done|]. split; intros Hnan; [apply Kx|apply Ky];
    by rewrite (modifies_rd _ _ _ _ _ _ M) by (by apply not_in_2).
Qed.

Lemma mistral_boid_step_nan x y vx vy (max_speed : float) max_force
    vision_radius separation_radius new_vx new_vy new_x new_y n width height
    s i :
  mistral_vectors x y vx vy new_vx new_vy new_x new_y n s ->
  NoDup [new_vx; new_vy; new_x; new_y] ->
  x ∉ [new_vx; new_vy; new_x; new_y] -> y ∉ [new_vx; new_vy; new_x; new_y] ->
  (i < n)%nat ->
  exists s', Mistral.boid_step x y vx vy max_speed max_force vision_radius
               separation_radius new_vx new_vy new_x new_y n width height i s
             = Done s' /\
             modifies [new_vx; new_vy; new_x; new_y] i s s' /\
             (rd s x i = Done nan -> rd s' new_x i = Done nan) /\
             (rd s y i = Done nan -> rd s' new_y i = Done nan).
Proof.
  intros Hs Hnd Nx Ny Hi. unfold Mistral.boid_step.
  pose proof Hs as (Hx & Hy & Hvx & Hvy & Hnvx & Hnvy & Hnx & Hny).
  revert Hnd Nx Ny. rewrite !NoDup_cons, !not_elem_of_cons.
  intros ((N1 & N2 & N3 & _) & (N4 & N5 & _) & (N6 & _) & _)
    (X1 & X2 & X3 & X4 & _) (Y1 & Y2 & Y3 & Y4 & _).
  run (new_velocity_modifies x y vx vy max_speed max_force vision_radius
         separation_radius new_vx new_vy new_x new_y n s i) as s1 M1.
  run (limit_speed_modifies new_vx new_vy max_speed i n s1) as s2 M2.
  assert (M : modifies [new_vx; new_vy] i s s2) by mods.
  assert (exists s3,
            Mistral.new_position x y new_vx new_vy new_x new_y i s2 = Done s3 /\
            modifies [new_x; new_y] i s2 s3 /\
            (rd s2 x i = Done nan -> rd s3 new_x i = Done nan) /\
            (rd s2 y i = Done nan -> rd s3 new_y i = Done nan))
    as (s3 & -> & M3 & Kx & Ky).
  { unfold Mistral.new_position. exec.
    eexists. split; [done|]. split; [mods|].
    cbn [fadd binary64_arith]. split; intros [= ->]; exec;
      by rewrite add_nan_l. }
  pose proof M3 as [Sh3 _]. cbn [bind].
  destruct (border_rebound_nan new_x new_vx width i n s3)
    as (s4 & -> & M4 & K4); [vec|vec|done|].
  pose proof M4 as [Sh4 _]. cbn [bind].
  destruct (border_rebound_nan new_y new_vy height i n s4)
    as (s5 & -> & M5 & K5); [vec|vec|done|].
  eexists. split; [done|]. split; [mods|]. split; intros Hnan.
  - rewrite (modifies_rd _ _ _ _ _ _ M5) by (by apply not_in_2).
    apply K4, Kx. by rewrite (modifies_rd _ _ _ _ _ _ M) by (by apply not_in_2).
  - apply K5. rewrite (modifies_rd _ _ _ _ _ _ M4) by (by apply not_in_2).
    apply Ky. by rewrite (modifies_rd _ _ _ _ _ _ M) by (by apply not_in_2).
Qed.
End NaN.

Lemma update_boids_cpp_keeps_nan
    (boids predators areas : DataFrame)
    (width height max_speed max_force neighbor_radius predator_radius : float)
    (area_radius : loc)
    (separation_weight alignment_weight cohesion_weight : float)
    (predator_avoid_weight area_avoid_weight : float)
    (rnd : nat -> float) (s : store float) (r i : nat) :
  well_formed s boids -> distinct_columns boids ->
  positions s predators -> positions s areas ->
  vector s area_radius r -> (nrows areas <= r)%nat ->
  (i < nrows boids)%nat ->
  exists out s',
    PoorAreas.update_boids_cpp boids predators areas width height max_speed
      max_force neighbor_radius predator_radius area_radius
      separation_weight alignment_weight cohesion_weight
      predator_avoid_weight area_avoid_weight rnd s = Done (out, s') /\
    (rd s (col_x boids) i = Done nan -> rd s' (col_x out) i = Done nan) /\
    (rd s (col_y boids) i = Done nan -> rd s' (col_y out) i = Done nan).
Proof.
  intros ((Hx & Hy) & Hvx & Hvy) Hnd [Hpx Hpy] [Hax Hay] Hr Hle Hi.
  unfold PoorAreas.update_boids_cpp.
  set (step := PoorAreas.boid_step _ _ _ _ _ _ _ _ _ _ _ _ _ _ _ _ _ _ _ _
                 _ _ _).
  assert (Hstep : forall (st : store float), shape st = shape s ->
            scanned_vectors (col_x boids) (col_y boids) (col_vx boids)
              (col_vy boids) (col_x predators) (col_y predators)
              (col_x areas) (col_y areas) (nrows boids) (nrows predators)
              (nrows areas) st /\ vector st area_radius r).
  { intros st Sh.
    unfold scanned_vectors, flock_vectors, vector in *. rewrite Sh.
    split_and!; eassumption. }
  destruct (for_loop_sweep step
              [col_x boids; col_y boids; col_vx boids; col_vy boids]
              s (nrows boids) i)
    as (s' & st & si & -> & Hst & Hsi & Sh & H1 & _ & H3); [|done|].
  { intros k cur Hk Sh. destruct (Hstep cur Sh) as [Hcur Hrcur].
    by eapply poor_areas_boid_step_modifies. }
  destruct (Hstep st Sh) as [Hcur Hrcur].
  destruct (poor_areas_boid_step_nan _ _ _ _ _ _ _ _ max_speed
              neighbor_radius predator_radius _ _ _ _ width height
              separation_weight alignment_weight cohesion_weight
              predator_avoid_weight area_avoid_weight rnd st i r Hcur
              Hrcur Hle Hnd Hi) as (si' & Hsi' & Kx & Ky).
  fold step in Hsi'. rewrite Hsi in Hsi'. injection Hsi' as <-.
  cbn [bind]. do 2 eexists. split; [done|]. cbn [col_x col_y].
  rewrite !H3, <- !(H1 _ i) by lia. done.
Qed.

Lemma update_predators_cpp_keeps_nan (predators boids : DataFrame)
    (width height max_speed pred_rel_speed : float) (s : store float)
    (i : nat) :
  well_formed s predators -> distinct_columns predators ->
  positions s boids -> (i < nrows predators)%nat ->
  exists out s',
    PoorAreas.update_predators_cpp predators boids width height max_speed
      pred_rel_speed s = Done (out, s') /\
    (rd s (col_x predators) i = Done nan -> rd s' (col_x out) i = Done nan) /\
    (rd s (col_y predators) i = Done nan -> rd s' (col_y out) i = Done nan).
Proof.
  intros ((Hpx & Hpy) & Hpvx & Hpvy) Hnd [Hbx Hby] Hi.
  unfold PoorAreas.update_predators_cpp.
  set (step := PoorAreas.predator_step _ _ _ _ _ _ _ _ _ _ _).
  destruct (for_loop_sweep step
              [col_x predators; col_y predators;
               col_vx predators; col_vy predators]
              s (nrows predators) i)
    as (s' & st & si & -> & Hst & Hsi & Sh & H1 & _ & H3); [|done|].
  { intros k cur Hk Sh.
    apply (predator_step_modifies _ _ _ _ _ _ (nrows predators) (nrows boids));
      try done; unfold vector in *; by rewrite Sh. }
  destruct (predator_step_nan (col_x predators) (col_y predators)
              (col_vx predators) (col_vy predators) (col_x boids)
              (col_y boids) (nrows boids) width height max_speed
              pred_rel_speed (nrows predators) st i)
    as (si' & Hsi' & Kx & Ky);
    [unfold vector in *; by rewrite Sh..|done|done|].
  fold step in Hsi'. rewrite Hsi in Hsi'. injection Hsi' as <-.
  cbn [bind]. do 2 eexists. split; [done|]. cbn [col_x col_y].
  rewrite !H3, <- !(H1 _ i) by lia. done.
Qed.

Lemma update_boids_keeps_nan (boids : DataFrame)
    (max_speed max_force vision_radius separation_radius width height : float)
    (s : store float) (i : nat) :
  well_formed s boids -> (i < nrows boids)%nat ->
  exists out s',
    Mistral.update_boids boids max_speed max_force vision_radius
      separation_radius width height s = Done (out, s') /\
    (rd s (col_x boids) i = Done nan -> rd s' (col_x out) i = Done nan) /\
    (rd s (col_y boids) i = Done nan -> rd s' (col_y out) i = Done nan).
Proof.
  intros Hb Hi.
  destruct (mistral_allocation boids s Hb) as (Hs0 & Hv0 & Hnd).
  destruct Hb as ((Hx & Hy) & Hvx & Hvy).
  unfold Mistral.update_boids, alloc. rewrite !length_app. cbn [length].
  cbv zeta in Hs0, Hv0. rewrite Hs0.
  set (z := replicate (nrows boids) fzero) in *.
  set (s4 := s ++ [z; z; z; z]) in *.
  set (ws := [length s; length s + 1; length s + 1 + 1;
              length s + 1 + 1 + 1]%nat) in *.
  set (step := Mistral.boid_step _ _ _ _ _ _ _ _ _ _ _ _ _ _ _).
  assert (Hold : forall v m, vector s v m -> v ∉ ws).
  { intros v m (l & Hl & _)%vector_lookup. apply lookup_lt_Some in Hl.
    unfold ws. rewrite !not_elem_of_cons. split_and!; try lia.
    apply not_elem_of_nil. }
  destruct (for_loop_sweep step ws s4 (nrows boids) i)
    as (s' & st & si & -> & Hst & Hsi & Sh & H1 & _ & H3); [|done|].
  { intros k cur Hk Sh. apply mistral_boid_step_modifies; [|done].
    unfold mistral_vectors, vector in *. by rewrite Sh. }
  destruct (mistral_boid_step_nan (col_x boids) (col_y boids) (col_vx boids)
              (col_vy boids) max_speed max_force vision_radius
              separation_radius (length s) (length s + 1) (length s + 1 + 1)
              (length s + 1 + 1 + 1) (nrows boids) width height st i)
    as (si' & Hsi' & _ & Kx & Ky); [|done|by eapply Hold..|done|].
  { unfold mistral_vectors, vector in *. by rewrite Sh. }
  fold step in Hsi'. rewrite Hsi in Hsi'. injection Hsi' as <-.
  cbn [bind]. do 2 eexists. split; [done|]. cbn [col_x col_y].
  rewrite !H3. rewrite <- (rd_app s [z; z; z; z] _ i _ Hx).
  rewrite <- (rd_app s [z; z; z; z] _ i _ Hy). fold s4.
  rewrite <- !(H1 _ i) by lia. done.
Qed.

(** X20.  A NaN coordinate is never repaired.  In binary64, a boid (of
    either flock update) or a predator whose x, or y, is NaN when the
    routine is called has a NaN x, or y, in the frame that the routine
    returns: NaN plus the velocity is NaN, and the rebound, whose two
    comparisons are false on NaN, neither clamps the position nor touches
    the velocity.  Well-formed inputs; four distinct columns for the two
    routines that update in place. *)
Theorem nan_position_is_never_repaired :
  (forall (boids : DataFrame)
     (max_speed max_force vision_radius separation_radius width height : float)
     (s : store float) (i : nat),
     well_formed s boids -> (i < nrows boids)%nat ->
     exists out s',
       Mistral.update_boids boids max_speed max_force vision_radius
         separation_radius width height s = Done (out, s') /\
       (rd s (col_x boids) i = Done nan -> rd s' (col_x out) i = Done nan) /\
       (rd s (col_y boids) i = Done nan -> rd s' (col_y out) i = Done nan))
  /\
  (forall (boids predators areas : DataFrame)
     (width height max_speed max_force : float)
     (neighbor_radius predator_radius : float) (area_radius : loc)
     (separation_weight alignment_weight cohesion_weight : float)
     (predator_avoid_weight area_avoid_weight : float)
     (rnd : nat -> float) (s : store float) (r i : nat),
     well_formed s boids -> distinct_columns boids ->
     positions s predators -> positions s areas ->
     vector s area_radius r -> (nrows areas <= r)%nat ->
     (i < nrows boids)%nat ->
     exists out s',
       PoorAreas.update_boids_cpp boids predators areas width height
         max_speed max_force neighbor_radius predator_radius area_radius
         separation_weight alignment_weight cohesion_weight
         predator_avoid_weight area_avoid_weight rnd s = Done (out, s') /\
       (rd s (col_x boids) i = Done nan -> rd s' (col_x out) i = Done nan) /\
       (rd s (col_y boids) i = Done nan -> rd s' (col_y out) i = Done nan))
  /\
  (forall (predators boids : DataFrame)
     (width height max_speed pred_rel_speed : float) (s : store float)
     (i : nat),
     well_formed s predators -> distinct_columns predators ->
     positions s boids -> (i < nrows predators)%nat ->
     exists out s',
       PoorAreas.update_predators_cpp predators boids width height max_speed
         pred_rel_speed s = Done (out, s') /\
       (rd s (col_x predators) i = Done nan ->
        rd s' (col_x out) i = Done nan) /\
       (rd s (col_y predators) i = Done nan ->
        rd s' (col_y out) i = Done nan)).
Proof.
  split; [|split].
  - intros. by apply update_boids_keeps_nan.
  - intros. by eapply update_boids_cpp_keeps_nan.
  - intros. by apply update_predators_cpp_keeps_nan.
Qed.

(** ** The further properties on the small world *)

Section FurtherOnSmallWorld.
Import Examples.
Local Open Scope R_scope.

Lemma small_world_predator :
  well_formed small_world (frame_4_7 1) /\ distinct_columns (frame_4_7 1) /\
  positions small_world (frame_0_3 2) /\
  (0%nat ∉ [4; 5; 6; 7]%nat) /\ (1%nat ∉ [4; 5; 6; 7]%nat).
Proof.
  split; [by repeat split|]. split; [|split; [by repeat split|]].
  - unfold distinct_columns. rewrite !NoDup_cons, !not_elem_of_cons. simpl.
    split_and!; try lia; try apply not_elem_of_nil. apply NoDup_nil_2.
  - rewrite !not_elem_of_cons.
    split; split_and!; try lia; apply not_elem_of_nil.
Qed.

Lemma small_world_allocated_vectors :
  mistral_vectors 0 1 2 3 13 14 15 16 2 small_world_allocated /\
  NoDup [13; 14; 15; 16]%nat.
Proof.
  split; [by repeat split|].
  rewrite !NoDup_cons, !not_elem_of_cons.
  split_and!; try lia; try apply not_elem_of_nil. apply NoDup_nil_2.
Qed.

Lemma small_world_scanned :
  scanned_vectors 0 1 2 3 4 5 4 5 2 1 1 small_world.
Proof. by repeat split. Qed.




Lemma update_predators_cpp_writes_predators_only_witness :
  exists s',
    PoorAreas.update_predators_cpp (frame_4_7 1) (frame_0_3 2) 100 100 2 1
      small_world = Done (frame_4_7 1, s') /\
    shape s' = shape small_world /\
    forall v, v ∉ [4; 5; 6; 7]%nat -> s' !! v = small_world !! v.
Proof.
  destruct small_world_predator as (Hp & _ & Hb & _).
  exact (update_predators_cpp_writes_predators_only (frame_4_7 1)
           (frame_0_3 2) 100 100 2 1 small_world Hp Hb).
Defined.

Lemma rebound_reflects_at_the_walls_witness :
  exists s' a' v',
    rebound 0 2 100 0 small_world = Done s' /\
    rd s' 0 0 = Done a' /\ rd s' 2 0 = Done v' /\
    rebound 0 2 100 0 s' = Done s'.
Proof.
  destruct (rebound_reflects_at_the_walls 0 2 100 0 2 small_world 0 1)
    as (s' & a' & v' & Hrun & Ha & Hv & _ & _ & _ & Hagain);
    [lia|reflexivity|reflexivity|lia|lra|reflexivity|reflexivity|].
  by exists s', a', v'.
Defined.

Lemma border_rebound_reflects_and_damps_witness :
  exists s' a' v',
    Mistral.border_rebound 0 2 100 0 small_world = Done s' /\
    rd s' 0 0 = Done a' /\ rd s' 2 0 = Done v' /\
    Mistral.border_rebound 0 2 100 0 s' = Done s'.
Proof.
  destruct (border_rebound_reflects_and_damps 0 2 100 0 2 small_world 0 1)
    as (s' & a' & v' & Hrun & Ha & Hv & _ & _ & _ & Hagain);
    [lia|reflexivity|reflexivity|lia|lra|reflexivity|reflexivity|].
  by exists s', a', v'.
Defined.

Lemma update_boids_returns_a_fresh_flock_witness :
  exists out s',
    Mistral.update_boids (frame_0_3 2) 2 (1 / 2) 10 5 100 100 small_world
      = Done (out, s') /\
    nrows out = 2%nat /\ length s' = 17%nat /\ well_formed s' out.
Proof.
  destruct small_world_well_formed as (Hb & _).
  destruct (update_boids_returns_a_fresh_flock (frame_0_3 2) 2 (1 / 2) 10 5
              100 100 small_world Hb)
    as (out & s' & Hrun & Hn & Hlen & Hout & _).
  by exists out, s'.
Defined.


Lemma predators_do_not_interact_witness :
  exists out s' si,
    PoorAreas.update_predators_cpp (frame_4_7 1) (frame_0_3 2) 100 100 2 1
      small_world = Done (out, s') /\
    PoorAreas.predator_step 4 5 6 7 0 1 2 100 100 2 1 0 small_world
      = Done si /\
    forall v, rd s' v 0 = rd si v 0.
Proof.
  destruct small_world_predator as (Hp & Hnd & Hb & N0 & N1).
  apply (predators_do_not_interact (frame_4_7 1) (frame_0_3 2) 100 100 2 1
           small_world 0 Hp Hnd Hb N0 N1). simpl; lia.
Defined.

Lemma update_boids_rows_are_independent_witness :
  exists out s' si,
    Mistral.update_boids (frame_0_3 2) 2 (1 / 2) 10 5 100 100 small_world
      = Done (out, s') /\
    Mistral.boid_step 0 1 2 3 2 (1 / 2) 10 5 (col_vx out) (col_vy out)
      (col_x out) (col_y out) 2 100 100 1 small_world_allocated = Done si /\
    forall v, rd s' v 1 = rd si v 1.
Proof.
  destruct small_world_well_formed as (Hb & _).
  refine (update_boids_rows_are_independent (frame_0_3 2) 2 (1 / 2) 10 5
            100 100 small_world 1 Hb _). simpl; lia.
Defined.

Lemma update_predators_cpp_checks_no_length_witness :
  PoorAreas.update_predators_cpp (frame_4_7 1) (frame_0_3 3) 100 100 2 1
    small_world = OutOfBounds 0 2.
Proof.
  apply (update_predators_cpp_checks_no_length (frame_4_7 1) (frame_0_3 3)
           100 100 2 1 small_world 2 2);
    [by repeat split|reflexivity|reflexivity|lia|simpl; lia|simpl; lia].
Defined.
Lemma update_boids_cpp_is_a_sequential_sweep_witness :
  exists out s' st si,
    PoorAreas.update_boids_cpp (frame_0_3 2) (frame_4_7 1) (frame_4_7 1)
      100 100 2 (1 / 2) 10 5 radii 1 1 1 1 1 (fun _ => 1 / 2) small_world
      = Done (out, s') /\
    for_loop 1
      (PoorAreas.boid_step 0 1 2 3 4 5 4 5 2 10 5 radii 2 1 1 100 100
         1 1 1 1 1 (fun _ => 1 / 2)) small_world = Done st /\
    PoorAreas.boid_step 0 1 2 3 4 5 4 5 2 10 5 radii 2 1 1 100 100
      1 1 1 1 1 (fun _ => 1 / 2) 1 st = Done si /\
    (forall v, rd st v 0 = rd s' v 0) /\
    (forall v, rd s' v 1 = rd si v 1).
Proof.
  destruct small_world_well_formed as (Hb & _ & Hp & Hr).
  destruct (update_boids_cpp_is_a_sequential_sweep (frame_0_3 2) (frame_4_7 1)
              (frame_4_7 1) 100 100 2 (1 / 2) 10 5 radii 1 1 1 1 1
              (fun _ => 1 / 2) small_world 1 1 Hb Hp Hp Hr)
    as (out & s' & st & si & Hrun & Hst & Hsi & _ & _ & H2 & H3);
    [simpl; lia|simpl; lia|].
  exists out, s', st, si. split_and!; try done.
  intros v. apply H2. lia.
Defined.

Lemma nan_position_is_never_repaired_witness :
  exists out s',
    PoorAreas.update_boids_cpp (frame_0_3 2) (frame_4_7 1) (frame_4_7 1)
      100%float 100%float 2%float 0.5%float 10%float 5%float radii
      1%float 1%float 1%float 1%float 1%float calm lost_boid
      = Done (out, s') /\
    rd s' (col_x out) 0 = Done nan.
Proof.
  destruct small_world_well_formed as (_ & Hnd & _).
  destruct (proj1 (proj2 nan_position_is_never_repaired)
              (frame_0_3 2) (frame_4_7 1) (frame_4_7 1)
              100%float 100%float 2%float 0.5%float 10%float 5%float radii
              1%float 1%float 1%float 1%float 1%float calm lost_boid 1%nat 0%nat)
    as (out & s' & Hrun & Kx & _);
    [by repeat split|done|by repeat split|by repeat split|reflexivity
    |simpl; lia|simpl; lia|].
  exists out, s'. split; [done|]. by apply Kx.
Defined.
End FurtherOnSmallWorld.
